(** * Cost-controlled, cached query execution: a shallow embedding

    This development embeds two modules of the pipeline,
    [qaa_analysis/cache/query_cache.py] (class [QueryCache]) and
    [qaa_analysis/etl/cost_aware_client.py] (class
    [CostAwareBigQueryClient]), with the part of
    [qaa_analysis/etl/basic_rev_etl.py] that calls them, and proves the
    properties the specification states about them.

    Conventions of the embedding:
    - Python [str] values are Rocq [string]s (byte strings, read as the UTF-8
      encoding of ASCII text, so that [.encode("utf-8")] is the identity on
      the bytes).
    - Python [int] is [Z]. A Python [float] is held as the rational it
      denotes: timestamps, ages and sizes are computed exactly; the currency
      figure is computed as the code does, each operation rounded to the
      nearest double (module [Float]).
    - Methods that log, read the clock or touch the file system are written
      in a small state monad over an explicit world; an exception is a value
      of type [exn] returned on the left of a sum. *)

From Stdlib Require Import ZArith QArith Qround Qabs Qpower String Ascii List.
From Stdlib Require Import Bool Lia.
From Stdlib Require Import OrdersEx Lqa.
From stdpp Require Import base option list sorting gmap strings pretty.
From Ceres Require Import Ceres.

Open Scope Z_scope.
Open Scope string_scope.

(** ** SHA-256 ([hashlib.sha256]) over 32-bit words held in [Z] *)

Module SHA256.

Definition wrap32 (x : Z) : Z := x mod 2 ^ 32.
Definition add32 (x y : Z) : Z := wrap32 (x + y).
Definition rotr (n x : Z) : Z :=
  wrap32 (Z.lor (Z.shiftr x n) (Z.shiftl x (32 - n))).
Definition shr (n x : Z) : Z := Z.shiftr x n.

Definition Ch (x y z : Z) : Z :=
  Z.lxor (Z.land x y) (Z.land (wrap32 (Z.lnot x)) z).
Definition Maj (x y z : Z) : Z :=
  Z.lxor (Z.lxor (Z.land x y) (Z.land x z)) (Z.land y z).
Definition bsig0 (x : Z) : Z :=
  Z.lxor (Z.lxor (rotr 2 x) (rotr 13 x)) (rotr 22 x).
Definition bsig1 (x : Z) : Z :=
  Z.lxor (Z.lxor (rotr 6 x) (rotr 11 x)) (rotr 25 x).
Definition ssig0 (x : Z) : Z :=
  Z.lxor (Z.lxor (rotr 7 x) (rotr 18 x)) (shr 3 x).
Definition ssig1 (x : Z) : Z :=
  Z.lxor (Z.lxor (rotr 17 x) (rotr 19 x)) (shr 10 x).

(** The round constants and the initial chaining words are the first 32
    bits of the fractional parts of the cube roots, respectively square
    roots, of the first primes. *)
Definition is_prime (n : Z) : bool :=
  (1 <? n)%Z &&
  forallb (fun d => negb (n mod d =? 0)%Z)
          (map Z.of_nat (seq 2 (Z.to_nat n - 2))).

Definition primes (count : nat) : list Z :=
  firstn count (filter (fun n => is_prime n = true) (map Z.of_nat (seq 2 320))).

(** The largest [r] below [2 ^ bits] above the start value with
    [r ^ k <= n], found bit by bit. *)
Fixpoint iroot (k : Z) (bits : nat) (n r : Z) : Z :=
  match bits with
  | O => r
  | S b =>
      let c := r + 2 ^ Z.of_nat b in
      iroot k b n (if (c ^ k <=? n)%Z then c else r)
  end.

Definition frac_root32 (k p : Z) : Z :=
  wrap32 (iroot k 40 (p * 2 ^ (32 * k)) 0).

Definition K : list Z :=
  Eval vm_compute in map (frac_root32 3) (primes 64).

(** The eight chaining words. *)
Record state := State {
  ha : Z; hb : Z; hc : Z; hd : Z; he : Z; hf : Z; hg : Z; hh : Z }.

Definition init : state :=
  Eval vm_compute in
    match map (frac_root32 2) (primes 8) with
    | [a; b; c; d; e; f; g; h] => State a b c d e f g h
    | _ => State 0 0 0 0 0 0 0 0
    end.

(** Padding: a 1 bit, zeros up to 56 mod 64, the bit length on 8 bytes. *)
Definition be_bytes (n : nat) (x : Z) : list Z :=
  map (fun i => (Z.shiftr x (8 * Z.of_nat i)) mod 256) (rev (seq 0 n)).

Definition pad (msg : list Z) : list Z :=
  let len := Z.of_nat (length msg) in
  let zeros := Z.to_nat ((55 - len) mod 64) in
  msg ++ [0x80] ++ repeat 0 zeros ++ be_bytes 8 (8 * len).

Fixpoint words_of_bytes (bs : list Z) : list Z :=
  match bs with
  | b0 :: b1 :: b2 :: b3 :: rest =>
      (b0 * 2 ^ 24 + b1 * 2 ^ 16 + b2 * 2 ^ 8 + b3) :: words_of_bytes rest
  | _ => []
  end.

(** Message schedule: sixteen block words extended to sixty-four. *)
Fixpoint schedule (n : nat) (w : list Z) : list Z :=
  match n with
  | O => w
  | S n' =>
      let i := length w in
      let at_back k := nth (i - k) w 0 in
      schedule n'
        (w ++ [add32 (add32 (ssig1 (at_back 2%nat)) (at_back 7%nat))
                     (add32 (ssig0 (at_back 15%nat)) (at_back 16%nat))])
  end.

Definition round (s : state) (kw : Z * Z) : state :=
  let t1 := add32 (add32 (add32 (hh s) (bsig1 (he s)))
                         (add32 (Ch (he s) (hf s) (hg s)) (fst kw)))
                  (snd kw) in
  let t2 := add32 (bsig0 (ha s)) (Maj (ha s) (hb s) (hc s)) in
  State (add32 t1 t2) (ha s) (hb s) (hc s)
        (add32 (hd s) t1) (he s) (hf s) (hg s).

Definition compress (s : state) (block : list Z) : state :=
  let w := schedule 48 (words_of_bytes block) in
  let r := fold_left round (combine K w) s in
  State (add32 (ha s) (ha r)) (add32 (hb s) (hb r))
        (add32 (hc s) (hc r)) (add32 (hd s) (hd r))
        (add32 (he s) (he r)) (add32 (hf s) (hf r))
        (add32 (hg s) (hg r)) (add32 (hh s) (hh r)).

Fixpoint blocks (fuel : nat) (bs : list Z) (s : state) : state :=
  match fuel with
  | O => s
  | S fuel' => blocks fuel' (skipn 64 bs) (compress s (firstn 64 bs))
  end.

Definition digest (msg : list Z) : state :=
  let p := pad msg in
  blocks (length p / 64) p init.

(** Lower-case hexadecimal rendering, eight digits per word. *)
Definition hex_digit (n : Z) : ascii :=
  match n mod 16 with
  | 0 => "0" | 1 => "1" | 2 => "2" | 3 => "3"
  | 4 => "4" | 5 => "5" | 6 => "6" | 7 => "7"
  | 8 => "8" | 9 => "9" | 10 => "a" | 11 => "b"
  | 12 => "c" | 13 => "d" | 14 => "e" | _ => "f"
  end%char.

Definition hex8 (w : Z) : string :=
  string_of_list_ascii
    (map (fun i => hex_digit (Z.shiftr w (4 * Z.of_nat i))) (rev (seq 0 8))).

Definition bytes_of_string (s : string) : list Z :=
  map (fun c => Z.of_N (N_of_ascii c)) (list_ascii_of_string s).

(** [hashlib.sha256(data).hexdigest()] *)
Definition hexdigest (data : string) : string :=
  let s := digest (bytes_of_string data) in
  hex8 (ha s) ++ hex8 (hb s) ++ hex8 (hc s) ++ hex8 (hd s) ++
  hex8 (he s) ++ hex8 (hf s) ++ hex8 (hg s) ++ hex8 (hh s).

Example hexdigest_abc :
  hexdigest "abc" =
  "ba7816bf8f01cfea414140de5dae2223b00361a396177a9cb410ff61f20015ad".
Proof. vm_compute. reflexivity. Qed.

Example hexdigest_two_blocks :
  hexdigest "abcdbcdecdefdefgefghfghighijhijkijkljklmklmnlmnomnopnopq" =
  "248d6a61d20638b8e5c026930c3e6039a33ce45964ff2167f6ecedd419db06c1".
Proof. vm_compute. reflexivity. Qed.

Example hexdigest_empty :
  hexdigest "" =
  "e3b0c44298fc1c149afbf4c8996fb92427ae41e4649b934ca495991b7852b855".
Proof. vm_compute. reflexivity. Qed.

End SHA256.

(** ** Python built-ins used by the two modules *)

Module Py.

(** Exceptions ([Exception] subclasses) as values. *)
Inductive exn :=
| QueryCostError (msg : string)
| TypeError (msg : string)
| GoogleCloudError (msg : string)
| OSError (msg : string)
| OtherException (cls msg : string).

(** [str(e)] *)
Definition exn_str (e : exn) : string :=
  match e with
  | QueryCostError m | TypeError m | GoogleCloudError m | OSError m => m
  | OtherException _ m => m
  end.

(** The [logging] module: records are kept in emission order. *)
Inductive level := DEBUG | INFO | WARNING | ERROR.
Definition log_record : Type := level * string.

(** [str.isspace] on ASCII characters. *)
Definition isspace (c : ascii) : bool :=
  let n := N_of_ascii c in
  ((9 <=? n) && (n <=? 13) || (28 <=? n) && (n <=? 32))%N.

Fixpoint lstrip (s : string) : string :=
  match s with
  | String c s' => if isspace c then lstrip s' else s
  | EmptyString => EmptyString
  end.

Definition string_rev (s : string) : string :=
  string_of_list_ascii (rev (list_ascii_of_string s)).

Definition rstrip (s : string) : string :=
  string_rev (lstrip (string_rev s)).

(** [s.strip()] *)
Definition strip (s : string) : string := rstrip (lstrip s).

(** [s[:n]] for a non-negative [n]. *)
Definition slice_to (n : nat) (s : string) : string := substring 0 n s.

(** [sep.join(items)] *)
Definition join (sep : string) (items : list string) : string :=
  String.concat sep items.

(** Format spec [","] on an [int]: groups of three digits from the right. *)
Fixpoint group3 (rev_digits : list ascii) : list ascii :=
  match rev_digits with
  | d0 :: d1 :: d2 :: ((_ :: _) as rest) =>
      d0 :: d1 :: d2 :: ","%char :: group3 rest
  | _ => rev_digits
  end.

Definition format_commas (z : Z) : string :=
  let digits := list_ascii_of_string (pretty (Z.abs z)) in
  (if (z <? 0)%Z then "-" else "") ++
  string_of_list_ascii (rev (group3 (rev digits))).

(** Round to the nearest integer, ties to even. *)
Definition round_half_even (q : Q) : Z :=
  let f := Qfloor q in
  match Qcompare (q - inject_Z f) (1 # 2) with
  | Lt => f
  | Gt => f + 1
  | Eq => if Z.even f then f else f + 1
  end.

Definition zero_pad (width : nat) (s : string) : string :=
  string_of_list_ascii (repeat "0"%char (width - String.length s)) ++ s.

(** Format spec [".<d>f"] on a number. *)
Definition format_fixed (d : nat) (q : Q) : string :=
  let scale := 10 ^ Z.of_nat d in
  let r := round_half_even (Qabs q * inject_Z scale) in
  (if Qlt_le_dec q 0 then "-" else "") ++
  pretty (r / scale) ++
  match d with
  | O => ""
  | _ => "." ++ zero_pad d (pretty (r mod scale))
  end.

(** [repr] of a [str]. *)
Definition dquote : ascii := "034"%char.

Definition contains (c : ascii) (s : string) : bool :=
  existsb (Ascii.eqb c) (list_ascii_of_string s).

Definition hex2 (n : N) : string :=
  String (SHA256.hex_digit (Z.of_N n / 16))
    (String (SHA256.hex_digit (Z.of_N n)) EmptyString).

Definition escape_char (quote : ascii) (c : ascii) : string :=
  let n := N_of_ascii c in
  if Ascii.eqb c quote || Ascii.eqb c "\"%char then
    String "\"%char (String c EmptyString)
  else if (n =? 9)%N then "\t"
  else if (n =? 10)%N then "\n"
  else if (n =? 13)%N then "\r"
  else if (n <? 32)%N || (n =? 127)%N then "\x" ++ hex2 n
  else String c EmptyString.

Definition repr_str (s : string) : string :=
  let quote :=
    if contains "'"%char s && negb (contains dquote s)
    then dquote else "'"%char in
  String quote
    (String.concat "" (map (escape_char quote) (list_ascii_of_string s))
     ++ String quote EmptyString).

(** The [__repr__] protocol. *)
Class Repr (A : Type) := repr : A -> string.

#[global] Instance repr_string : Repr string := repr_str.
#[global] Instance repr_Z : Repr Z := fun z => pretty z.
#[global] Instance repr_bool : Repr bool :=
  fun b => if b then "True" else "False".
#[global] Instance repr_pair {A B} `{Repr A, Repr B} : Repr (A * B) :=
  fun p => "(" ++ repr (fst p) ++ ", " ++ repr (snd p) ++ ")".
#[global] Instance repr_list {A} `{Repr A} : Repr (list A) :=
  fun l => "[" ++ join ", " (map repr l) ++ "]".

(** Scalar values passed around as parameters and attributes. *)
Inductive value :=
| VNone
| VBool (b : bool)
| VInt (z : Z)
| VStr (s : string).

#[global] Instance repr_value : Repr value := fun v =>
  match v with
  | VNone => "None"
  | VBool b => repr b
  | VInt z => repr z
  | VStr s => repr s
  end.

(** *** The integer formats can be read back *)

























Example strip_ex : strip (String (ascii_of_N 9) "  q ") = "q".
Proof. reflexivity. Qed.
Example format_commas_ex :
  map format_commas [1234567; -1234567; 0; 999; 1000; -100] =
  ["1,234,567"; "-1,234,567"; "0"; "999"; "1,000"; "-100"].
Proof. vm_compute. reflexivity. Qed.
Example format_fixed_ex :
  [format_fixed 4 (7324 # 100000); format_fixed 4 (-1 # 100000);
   format_fixed 1 (1 # 4); format_fixed 0 (5 # 2); format_fixed 1 (1 # 2)] =
  ["0.0732"; "-0.0000"; "0.2"; "2"; "0.5"].
Proof. vm_compute. reflexivity. Qed.
Example repr_ex :
  repr [("a", VNone); ("b", VStr "it's"); ("c", VBool true); ("d", VInt (-12))]
  = "[('a', None), ('b', " ++ String dquote "it's" ++ String dquote
    "), ('c', True), ('d', -12)]".
Proof. vm_compute. reflexivity. Qed.

End Py.

(** ** Python [float]: IEEE 754 binary64

    A finite double is held as the rational it denotes. An operation is the
    exact result rounded to the nearest double, ties to even, with 53
    significant bits; the exponent range is not bounded, which the byte
    counts of the service (64-bit integers) never leave. *)

Module Float.

(** [floor (log2 q)] for a positive [q]. *)
Definition ilog2 (q : Q) : Z :=
  let e := Z.log2 (Qnum q) - Z.log2 (Z.pos (Qden q)) in
  if Qle_bool (2 ^ e) q then e else e - 1.

(** The double nearest to [x]. *)
Definition round (x : Q) : Q :=
  let q := Qred x in
  match Qnum q with
  | 0 => 0%Q
  | _ =>
      let ulp := (2 ^ (ilog2 (Qabs q) - 52))%Q in
      Qred (inject_Z (Py.round_half_even (q / ulp)) * ulp)
  end.

(** [a / b] on two [int]s; [x * y] and [x + y] on two [float]s. *)
Definition true_div (a b : Z) : Q := round (inject_Z a / inject_Z b).
Definition mul (x y : Q) : Q := round (x * y).
Definition add (x y : Q) : Q := round (x + y).

Lemma two_nonzero : ~ (2 == 0)%Q.
Proof. discriminate. Qed.

Lemma pow2_pos e : (0 < 2 ^ e)%Q.
Proof. apply Qpower_0_lt. reflexivity. Qed.

Lemma pow2_Z e : 0 <= e -> (inject_Z (2 ^ e) == 2 ^ e)%Q.
Proof. intros He. now rewrite Zpower_Qpower. Qed.

Lemma ilog2_le (q : Q) : (0 < q)%Q -> (2 ^ ilog2 q <= q)%Q.
Proof.
  intros Hq. unfold ilog2.
  set (n := Qnum q). set (d := Z.pos (Qden q)).
  destruct (Qle_bool (2 ^ (Z.log2 n - Z.log2 d)) q) eqn:Hle.
  { now apply Qle_bool_iff. }
  assert (0 < n) as Hn
    by (destruct q as [[|p|p] dd]; cbn in *; try lia;
        unfold Qlt in Hq; cbn in Hq; lia).
  assert (0 < d) as Hd by (unfold d; lia).
  destruct (Z.log2_spec n Hn) as [Hn1 _].
  destruct (Z.log2_spec d Hd) as [_ Hd2].
  replace (Z.log2 n - Z.log2 d - 1) with (Z.log2 n - Z.succ (Z.log2 d))
    by lia.
  rewrite Qpower_minus by apply two_nonzero.
  rewrite <- !pow2_Z
    by (try apply Z.log2_nonneg; pose proof (Z.log2_nonneg d); lia).
  apply Qle_shift_div_r.
  { apply (Qlt_le_trans _ (inject_Z d)); [reflexivity|].
    rewrite <- Zle_Qle. lia. }
  assert (q == inject_Z n / inject_Z d)%Q as ->.
  { unfold n, d. destruct q as [qn qd]. cbn. unfold Qeq, Qdiv, Qmult, Qinv.
    cbn. lia. }
  unfold Qdiv. rewrite <- Qmult_assoc.
  setoid_replace
    (inject_Z n * (/ inject_Z d * inject_Z (2 ^ Z.succ (Z.log2 d))))%Q
    with (inject_Z n * (inject_Z (2 ^ Z.succ (Z.log2 d)) / inject_Z d))%Q
    using relation Qeq by (unfold Qdiv; ring).
  apply (Qle_trans _ (inject_Z n * 1)%Q).
  { rewrite Qmult_1_r. rewrite <- Zle_Qle. exact Hn1. }
  apply Qmult_le_l.
  { replace 0%Q with (inject_Z 0) by reflexivity. rewrite <- Zlt_Qlt.
    exact Hn. }
  apply Qle_shift_div_l.
  { replace 0%Q with (inject_Z 0) by reflexivity. rewrite <- Zlt_Qlt.
    exact Hd. }
  rewrite Qmult_1_l. rewrite <- Zle_Qle. lia.
Qed.

Lemma round_half_even_Z (y : Q) (m : Z) :
  (y == inject_Z m)%Q -> Py.round_half_even y = m.
Proof.
  intros Hy. unfold Py.round_half_even.
  assert (Qfloor y = m) as -> by (rewrite Hy; apply Qfloor_Z).
  assert ((y - inject_Z m ?= 1 # 2)%Q = Lt) as ->; [|reflexivity].
  rewrite Hy. rewrite <- Qlt_alt.
  setoid_replace (inject_Z m - inject_Z m)%Q with 0%Q using relation Qeq
    by ring.
  reflexivity.
Qed.

(** A value with at most 53 significant bits is a double: rounding leaves
    it as it is. *)
Lemma round_exact (x : Q) (k j : Z) :
  0 < k < 2 ^ 53 -> (x == inject_Z k * 2 ^ j)%Q -> (round x == x)%Q.
Proof.
  intros [Hk0 Hk] Hx. unfold round.
  assert (Qred x == x)%Q as Hred by apply Qred_correct.
  set (q := Qred x) in *.
  assert (0 < q)%Q as Hq.
  { rewrite Hred, Hx. apply Qmult_lt_0_compat; [|apply pow2_pos].
    replace 0%Q with (inject_Z 0) by reflexivity. now rewrite <- Zlt_Qlt. }
  assert (Qabs q = q) as Habs.
  { destruct q as [[|p|p] d]; try reflexivity; discriminate Hq. }
  destruct (Qnum q) eqn:Hnum.
  { exfalso. destruct q as [n d]. cbn in Hnum. subst n. discriminate Hq. }
  2: { exfalso. destruct q as [n d]. cbn in Hnum. subst n. discriminate Hq. }
  rewrite Habs. rewrite Qred_correct.
  pose proof (ilog2_le q Hq) as HE.
  set (E := ilog2 q) in *.
  assert (E - 52 <= j) as Hj.
  { destruct (Z_le_gt_dec (E - 52) j) as [?|Hgt]; [assumption|exfalso].
    assert (q < 2 ^ E)%Q as Hlt.
    { rewrite Hred, Hx.
      apply (Qlt_le_trans _ (2 ^ 53 * 2 ^ j)%Q).
      - apply Qmult_lt_compat_r; [apply pow2_pos|].
        rewrite <- pow2_Z by lia. now rewrite <- Zlt_Qlt.
      - rewrite <- Qpower_plus by apply two_nonzero.
        apply Qpower_le_compat_l; [lia | discriminate]. }
    apply (Qlt_irrefl q). eapply Qlt_le_trans; eauto. }
  assert (2 ^ (j - (E - 52)) == 2 ^ j / 2 ^ (E - 52))%Q as Hsplit
    by apply Qpower_minus, two_nonzero.
  assert (~ 2 ^ (E - 52) == 0)%Q as Hulp by apply Qpower_not_0, two_nonzero.
  assert (q / 2 ^ (E - 52) == inject_Z (k * 2 ^ (j - (E - 52))))%Q as Hm.
  { rewrite Hred, Hx, inject_Z_mult, pow2_Z, Hsplit by lia.
    revert Hulp. generalize (2 ^ (E - 52))%Q (2 ^ j)%Q. intros u v Hu.
    field. exact Hu. }
  rewrite (round_half_even_Z _ _ Hm).
  rewrite Hx, inject_Z_mult, pow2_Z, Hsplit by lia.
  revert Hulp. generalize (2 ^ (E - 52))%Q (2 ^ j)%Q. intros u v Hu.
  field. exact Hu.
Qed.

Lemma round_comp (x y : Q) : (x == y)%Q -> round x = round y.
Proof.
  intros Hxy. unfold round. now rewrite (Qred_complete _ _ Hxy).
Qed.

(** One third is not a double: the quotient is rounded. *)
Example true_div_rounds :
  true_div 1 3 = (6004799503160661 # 18014398509481984)%Q.
Proof. vm_compute. reflexivity. Qed.

End Float.

(** ** A state monad over an explicit world *)

Definition M (W A : Type) : Type := W -> A * W.

Definition ret {W A} (a : A) : M W A := fun w => (a, w).

Definition bind {W A B} (m : M W A) (k : A -> M W B) : M W B :=
  fun w => let (a, w') := m w in k a w'.

Notation "'let*' x ':=' m 'in' k" := (bind m (fun x => k))
  (at level 10, x pattern, m at level 100, k at level 200).
Notation "m '>>' k" := (bind m (fun _ => k))
  (at level 100, k at level 200, right associativity).

(** The result of a call that may raise. *)
Abbreviation result A := (Py.exn + A)%type.
Abbreviation Raise e := (inl e).
Abbreviation Return a := (inr a).

(** ** Tabular results ([pandas.DataFrame]) *)

(** The column names, the rows, and the row labels: [None] is the default
    index (0, 1, 2, ...), [Some labels] an index of the frame's own. *)
Record DataFrame := {
  columns : list string;
  rows : list (list Py.value);
  index : option (list Py.value) }.

(** [pd.DataFrame()] *)
Definition DataFrame_new : DataFrame :=
  {| columns := []; rows := []; index := None |}.

(** [len(df)] *)
Definition df_len (df : DataFrame) : nat := length (rows df).

(** [df.empty]: one of the two axes has length zero. *)
Definition df_empty (df : DataFrame) : bool :=
  (length (columns df) =? 0)%nat || (length (rows df) =? 0)%nat.

(** ** [config.py]: the settings the two modules read *)

Record PipelineConfig := {
  PROJECT_ID : string;
  MAX_BYTES_BILLED : Z;
  LOCAL_CACHE_DIR : string;
  CACHE_TTL_HOURS : Z }.

(** ** [etl/cost_aware_client.py] *)

Module CostAwareClient.
Import Py.

(** [bigquery.QueryJobConfig]: attribute name to value. *)
Abbreviation JobConfig := (gmap string value).

Definition QueryJobConfig (dry_run use_query_cache : bool)
    (maximum_bytes_billed : Z) : JobConfig :=
  <["dry_run" := VBool dry_run]>
    (<["use_query_cache" := VBool use_query_cache]>
      (<["maximum_bytes_billed" := VInt maximum_bytes_billed]> ∅)).

(** [bigquery.QueryJob], as far as the client reads it. *)
Record query_job := {
  total_bytes_processed : option Z;
  total_bytes_billed : option Z;
  to_dataframe : result DataFrame }.

(** What assigning to an attribute of a [QueryJobConfig] can raise: an
    exception of the library. [QueryCostError] is a class of this module and
    is not among them. *)
Inductive setter_error :=
| SetterTypeError (msg : string)
| SetterError (cls msg : string).

Definition raised (e : setter_error) : exn :=
  match e with
  | SetterTypeError msg => TypeError msg
  | SetterError cls msg => OtherException cls msg
  end.

(** The remote service behind [bigquery.Client], the attribute names
    [QueryJobConfig] objects have and what their setters do with a value:
    store it, store something derived from it, or raise. *)
Record bigquery := {
  remote_query : string -> JobConfig -> result query_job;
  config_hasattr : string -> bool;
  config_setattr : string -> value -> JobConfig -> setter_error + JobConfig }.

Record world := World {
  log : list log_record;
  calls : list (string * JobConfig) }.

Definition logger (lvl : level) (msg : string) : M world unit :=
  fun w => (tt, World (log w ++ [(lvl, msg)]) (calls w)).

(** [self.client.query(query, job_config=job_config)] *)
Definition client_query (bq : bigquery) (query : string)
    (job_config : JobConfig) : M world (result query_job) :=
  fun w => (remote_query bq query job_config,
            World (log w) (calls w ++ [(query, job_config)])).

Definition COST_PER_TIB_USD : Q := 625 # 100.
Definition BYTES_PER_TIB : Z := 1024 ^ 4.

(** [x or 0] for an optional integer. *)
Definition or_zero (x : option Z) : Z :=
  match x with
  | Some n => if (n =? 0)%Z then 0 else n
  | None => 0
  end.

(** [(bytes / self.BYTES_PER_TIB) * self.COST_PER_TIB_USD] *)
Definition cost_usd (bytes : Z) : Q :=
  Float.mul (Float.true_div bytes BYTES_PER_TIB) COST_PER_TIB_USD.

Definition estimate_query_cost (bq : bigquery) (config : PipelineConfig)
    (query : string) : M world (result (Z * Q)) :=
  let job_config := QueryJobConfig true false (MAX_BYTES_BILLED config) in
  let* r := client_query bq query job_config in
  match r with
  | Return query_job =>
      let bytes_estimate := or_zero (total_bytes_processed query_job) in
      let cost_estimate := cost_usd bytes_estimate in
      logger INFO ("Query cost estimate: " ++ format_commas bytes_estimate
                   ++ " bytes ($" ++ format_fixed 4 cost_estimate ++ " USD)") >>
      ret (Return (bytes_estimate, cost_estimate))
  | Raise (GoogleCloudError _ as e) =>
      logger ERROR ("Dry run failed: " ++ exn_str e) >>
      ret (Raise e)
  | Raise e => ret (Raise e)
  end.

(** The loop over [job_config_customizations.items()]. It stands outside
    any [try]: what [setattr] raises ends the loop and leaves [safe_query]. *)
Fixpoint apply_customizations (bq : bigquery)
    (items : list (string * value)) (job_config : JobConfig)
    : M world (result JobConfig) :=
  match items with
  | [] => ret (Return job_config)
  | (key, value) :: rest =>
      if config_hasattr bq key then
        match config_setattr bq key value job_config with
        | inl e => ret (Raise (raised e))
        | inr job_config => apply_customizations bq rest job_config
        end
      else
        logger WARNING ("Unknown job config parameter: " ++ key) >>
        apply_customizations bq rest job_config
  end.

(** The two [except] clauses around the execution: log and re-raise. *)
Definition execution_failed {A} (e : exn) : M world (result A) :=
  match e with
  | GoogleCloudError _ =>
      logger ERROR ("Query execution failed: " ++ exn_str e)
  | _ =>
      logger ERROR ("Unexpected error during query execution: "
                    ++ exn_str e)
  end >>
  ret (Raise e).

Definition cost_error_msg (bytes_estimate limit : Z) (cost_estimate : Q)
    : string :=
  "Query exceeds maximum bytes billed limit. " ++
  "Estimated: " ++ format_commas bytes_estimate ++ " bytes, " ++
  "Limit: " ++ format_commas limit ++ " bytes " ++
  "($" ++ format_fixed 4 cost_estimate ++ " USD)".

Definition safe_query (bq : bigquery) (config : PipelineConfig)
    (query : string) (job_config_customizations : option (list (string * value)))
    : M world (result DataFrame) :=
  (* Step 1: estimate query cost *)
  let* r := estimate_query_cost bq config query in
  match r with
  | Raise e =>
      logger ERROR ("Cost estimation failed: " ++ exn_str e) >>
      ret (Raise e)
  | Return (bytes_estimate, cost_estimate) =>
      (* Step 2: check against billing limits *)
      if (bytes_estimate >? MAX_BYTES_BILLED config)%Z then
        let error_msg :=
          cost_error_msg bytes_estimate (MAX_BYTES_BILLED config)
                         cost_estimate in
        logger ERROR error_msg >>
        ret (Raise (QueryCostError error_msg))
      else
        (* Step 3: execute the query *)
        logger INFO ("Proceeding with query execution ($" ++
                     format_fixed 4 cost_estimate ++
                     " USD estimated cost)") >>
        let job_config :=
          QueryJobConfig false true (MAX_BYTES_BILLED config) in
        let* customized :=
          match job_config_customizations with
          | Some ((_ :: _) as items) =>
              apply_customizations bq items job_config
          | _ => ret (Return job_config)
          end in
        match customized with
        | Raise e => ret (Raise e)
        | Return job_config =>
            let* r := client_query bq query job_config in
            match r with
            | Raise e => execution_failed e
            | Return query_job =>
                match to_dataframe query_job with
                | Raise e => execution_failed e
                | Return results_df =>
                    let actual_bytes :=
                      or_zero (total_bytes_billed query_job) in
                    let actual_cost := cost_usd actual_bytes in
                    logger INFO ("Query completed successfully. " ++
                      "Actual usage: " ++ format_commas actual_bytes ++
                      " bytes ($" ++ format_fixed 4 actual_cost ++
                      " USD), " ++
                      "Rows returned: " ++
                      format_commas (Z.of_nat (df_len results_df))) >>
                    ret (Return results_df)
                end
            end
        end
  end.

(** *** Properties *)

(** The job configuration of the mandatory dry run. *)
Definition dry_run_config (config : PipelineConfig) : JobConfig :=
  QueryJobConfig true false (MAX_BYTES_BILLED config).

(** A refusal: [QueryCostError] reaches the caller and the only call sent
    to the service during [safe_query] is the dry run. *)
Definition refused (config : PipelineConfig) (query : string)
    (w : world) (out : result DataFrame * world) : Prop :=
  (exists msg, fst out = Raise (QueryCostError msg)) /\
  calls (snd out) = (calls w ++ [(query, dry_run_config config)])%list.

Lemma apply_customizations_calls bq items :
  forall job_config w,
    calls (snd (apply_customizations bq items job_config w)) = calls w.
Proof.
  induction items as [|[key value] rest IH]; intros job_config w; simpl.
  - reflexivity.
  - destruct (config_hasattr bq key).
    + destruct (config_setattr bq key value job_config); [reflexivity|].
      apply IH.
    + unfold bind, logger. simpl. rewrite IH. reflexivity.
Qed.

(** What the loop returns depends on the items and the setters, not on the
    log. *)
Lemma apply_customizations_value bq items :
  forall job_config w1 w2,
    fst (apply_customizations bq items job_config w1) =
    fst (apply_customizations bq items job_config w2).
Proof.
  induction items as [|[key value] rest IH]; intros job_config w1 w2; simpl.
  - reflexivity.
  - destruct (config_hasattr bq key).
    + destruct (config_setattr bq key value job_config); [reflexivity|].
      apply IH.
    + unfold bind, logger. simpl. apply IH.
Qed.

(** The loop raises nothing but what a setter raised. *)
Lemma apply_customizations_raises bq items :
  forall job_config w e,
    fst (apply_customizations bq items job_config w) = Raise e ->
    exists setter_raised, e = raised setter_raised.
Proof.
  induction items as [|[key value] rest IH]; intros job_config w e; simpl.
  - discriminate.
  - destruct (config_hasattr bq key).
    + destruct (config_setattr bq key value job_config) as [se|cfg].
      * intros [= <-]. eauto.
      * apply IH.
    + unfold bind, logger. simpl. apply IH.
Qed.

(** The customization step of [safe_query]. *)
Definition customize (bq : bigquery)
    (job_config_customizations : option (list (string * value)))
    (job_config : JobConfig) : M world (result JobConfig) :=
  match job_config_customizations with
  | Some ((_ :: _) as items) => apply_customizations bq items job_config
  | _ => ret (Return job_config)
  end.

Lemma customize_spec bq cust job_config w1 w2 :
  fst (customize bq cust job_config w1) =
    fst (customize bq cust job_config w2) /\
  calls (snd (customize bq cust job_config w1)) = calls w1 /\
  (forall e, fst (customize bq cust job_config w1) = Raise e ->
     exists setter_raised, e = raised setter_raised).
Proof.
  unfold customize. destruct cust as [[|item items]|];
    try (repeat split; discriminate).
  split; [apply apply_customizations_value|].
  split; [apply apply_customizations_calls|].
  apply apply_customizations_raises.
Qed.

Lemma estimate_query_cost_ok bq config query w job :
  remote_query bq query (dry_run_config config) = Return job ->
  let bytes_estimate := or_zero (total_bytes_processed job) in
  exists lg,
    estimate_query_cost bq config query w =
    (Return (bytes_estimate, cost_usd bytes_estimate),
     World lg (calls w ++ [(query, dry_run_config config)])).
Proof.
  intros Hjob. unfold estimate_query_cost, bind, client_query, logger, ret.
  fold (dry_run_config config). rewrite Hjob. simpl. eexists. reflexivity.
Qed.

(** What the billed call, once made, hands back to the caller. *)
Definition execution_outcome (r : result query_job) : result DataFrame :=
  match r with
  | Raise e => Raise e
  | Return query_job => to_dataframe query_job
  end.

Lemma execution_failed_spec {A} (e : exn) w :
  fst (@execution_failed A e w) = Raise e /\
  calls (snd (@execution_failed A e w)) = calls w.
Proof. destruct e; split; reflexivity. Qed.

Lemma safe_query_over_limit bq config query cust w job :
  remote_query bq query (dry_run_config config) = Return job ->
  let estimate := or_zero (total_bytes_processed job) in
  let ceiling := MAX_BYTES_BILLED config in
  (estimate > ceiling)%Z ->
  fst (safe_query bq config query cust w) =
    Raise (QueryCostError
             (cost_error_msg estimate ceiling (cost_usd estimate))) /\
  calls (snd (safe_query bq config query cust w)) =
    (calls w ++ [(query, dry_run_config config)])%list.
Proof.
  intros Hjob estimate ceiling Hgt.
  destruct (estimate_query_cost_ok bq config query w job Hjob) as [lg Hest].
  unfold safe_query, bind. rewrite Hest. fold estimate ceiling.
  assert ((estimate >? ceiling)%Z = true) as -> by (apply Z.gtb_lt; lia).
  split; reflexivity.
Qed.

(** Within the ceiling: either the customizations are accepted and the
    billed job is sent with the customized configuration, or a setter raised
    and nothing follows the dry run. *)
Lemma safe_query_within_limit bq config query cust w job :
  remote_query bq query (dry_run_config config) = Return job ->
  (or_zero (total_bytes_processed job) <= MAX_BYTES_BILLED config)%Z ->
  let billed := QueryJobConfig false true (MAX_BYTES_BILLED config) in
  let out := safe_query bq config query cust w in
  match fst (customize bq cust billed w) with
  | Return job_config =>
      calls (snd out) =
        (calls w ++ [(query, dry_run_config config);
                     (query, job_config)])%list /\
      fst out = execution_outcome (remote_query bq query job_config)
  | Raise e =>
      calls (snd out) = (calls w ++ [(query, dry_run_config config)])%list /\
      fst out = Raise e /\
      exists setter_raised, e = raised setter_raised
  end.
Proof.
  intros Hjob Hle billed out. subst out.
  destruct (estimate_query_cost_ok bq config query w job Hjob) as [lg Hest].
  unfold safe_query, bind. rewrite Hest.
  assert ((or_zero (total_bytes_processed job)
           >? MAX_BYTES_BILLED config)%Z = false) as ->
    by (rewrite Z.gtb_ltb; apply Z.ltb_ge; lia).
  cbn [logger]. fold billed. fold (customize bq cust billed).
  set (w1 := World _ _).
  destruct (customize_spec bq cust billed w1 w) as (Hval & Hcalls & Hraised).
  rewrite <- Hval.
  destruct (customize bq cust billed w1) as [[e|job_config] w2].
  { cbn [fst snd] in *. subst w1. cbn [calls] in Hcalls.
    split; [exact Hcalls|]. split; [reflexivity|]. now apply Hraised. }
  cbn [fst snd] in *. subst w1. cbn [calls] in Hcalls.
  unfold client_query. cbn [calls log].
  rewrite Hcalls, <- app_assoc. simpl.
  destruct (remote_query bq query job_config) as [e|qj]; simpl.
  - destruct (@execution_failed_spec DataFrame e
                (World (log w2) (calls w ++ [(query, dry_run_config config);
                                             (query, job_config)])))
      as [-> ->]. split; reflexivity.
  - destruct (to_dataframe qj) as [e|df]; simpl.
    + destruct (@execution_failed_spec DataFrame e
                (World (log w2) (calls w ++ [(query, dry_run_config config);
                                             (query, job_config)])))
        as [-> ->]. split; reflexivity.
    + split; reflexivity.
Qed.

(** Within the ceiling a call is no refusal: either two calls were sent or
    an exception of the library left [safe_query]. *)
Lemma within_limit_not_refused bq config query cust w job :
  remote_query bq query (dry_run_config config) = Return job ->
  (or_zero (total_bytes_processed job) <= MAX_BYTES_BILLED config)%Z ->
  ~ refused config query w (safe_query bq config query cust w).
Proof.
  intros Hjob Hle [[msg Hmsg] Hcalls].
  pose proof (safe_query_within_limit bq config query cust w job Hjob Hle)
    as Hin.
  cbv zeta in Hin.
  destruct (fst (customize bq cust _ w)) as [e|job_config].
  - destruct Hin as (_ & Hres & [setter_raised ->]).
    rewrite Hres in Hmsg. destruct setter_raised; discriminate.
  - destruct Hin as [Hcalls' _]. rewrite Hcalls' in Hcalls.
    apply (f_equal (@List.length _)) in Hcalls.
    rewrite !length_app in Hcalls. simpl in Hcalls. lia.
Qed.




(** Up to 2^53/25 bytes (about 327 TiB) neither the division nor the
    product is rounded. *)
Lemma cost_usd_exact (bytes : Z) :
  0 <= bytes -> bytes * 25 < 2 ^ 53 ->
  cost_usd bytes ==
    inject_Z bytes / inject_Z BYTES_PER_TIB * COST_PER_TIB_USD.
Proof.
  intros Hpos Hsmall.
  destruct (Z.eq_dec bytes 0) as [->|Hne]; [reflexivity|].
  unfold cost_usd, Float.mul, Float.true_div.
  assert (Float.round (inject_Z bytes / inject_Z BYTES_PER_TIB) ==
          inject_Z bytes / inject_Z BYTES_PER_TIB) as Hdiv.
  { apply (Float.round_exact _ bytes (-40)); [lia|].
    unfold Qdiv. apply Qmult_comp; reflexivity. }
  rewrite (Float.round_comp _ _ (Qmult_comp _ _ Hdiv _ _ (Qeq_refl _))).
  apply (Float.round_exact _ (bytes * 25) (-42)); [lia|].
  rewrite inject_Z_mult. unfold COST_PER_TIB_USD, BYTES_PER_TIB.
  change (2 ^ (-42))%Q with (1 # 4398046511104)%Q.
  change (inject_Z (1024 ^ 4)) with (1099511627776 # 1)%Q.
  change (inject_Z 25) with (25 # 1)%Q.
  field.
Qed.

(** C9, as the code has it. The currency figure returned by
    [estimate_query_cost] is the byte estimate divided by the bytes of one
    tebibyte times the price of one tebibyte, computed in doubles. Zero
    bytes cost zero and one tebibyte costs the configured price. Up to
    2^53/25 bytes the figure is the exact product and so additive and
    homogeneous in the byte count. *)
Theorem cost_estimate_formula bq config query w job :
  remote_query bq query (dry_run_config config) = Return job ->
  let bytes_estimate := or_zero (total_bytes_processed job) in
  (exists cost_estimate,
     fst (estimate_query_cost bq config query w) =
       Return (bytes_estimate, cost_estimate) /\
     cost_estimate =
       Float.mul (Float.true_div bytes_estimate (2 ^ 40)) COST_PER_TIB_USD /\
     (bytes_estimate = 0%Z -> cost_estimate == 0) /\
     (bytes_estimate = (2 ^ 40)%Z -> cost_estimate == COST_PER_TIB_USD) /\
     (0 <= bytes_estimate -> bytes_estimate * 25 < 2 ^ 53 ->
      cost_estimate ==
        inject_Z bytes_estimate / inject_Z (2 ^ 40) * COST_PER_TIB_USD)) /\
  (forall b1 b2 : Z,
     0 <= b1 -> 0 <= b2 -> (b1 + b2) * 25 < 2 ^ 53 ->
     cost_usd (b1 + b2) == cost_usd b1 + cost_usd b2) /\
  (forall k b : Z,
     0 <= k -> 0 <= b -> k * b * 25 < 2 ^ 53 ->
     cost_usd (k * b) == inject_Z k * cost_usd b).
Proof.
  intros Hjob bytes_estimate. split; [|split].
  - destruct (estimate_query_cost_ok bq config query w job Hjob) as [lg Hest].
    exists (cost_usd bytes_estimate). rewrite Hest. cbn [fst].
    split; [reflexivity|]. split; [reflexivity|]. split; [|split].
    + intros ->. reflexivity.
    + intros ->. vm_compute. reflexivity.
    + intros Hpos Hsmall. now apply cost_usd_exact.
  - intros b1 b2 H1 H2 Hsum.
    rewrite !cost_usd_exact by lia. rewrite inject_Z_plus. field.
    discriminate.
  - intros k b Hk Hb Hprod.
    destruct (Z.eq_dec k 0) as [->|Hk0].
    { rewrite Z.mul_0_l. change (cost_usd 0) with 0%Q. ring. }
    destruct (Z.eq_dec b 0) as [->|Hb0].
    { rewrite Z.mul_0_r. change (cost_usd 0) with 0%Q. ring. }
    rewrite !cost_usd_exact by nia. rewrite inject_Z_mult. field.
    discriminate.
Qed.

(** *** A concrete service: ceiling 10 GiB, the dry run reports what it is
    asked to report, the billed run returns three rows. The setter of
    [labels] wants a dict and raises on the scalar values at hand; the other
    setters store what they are given. *)

Definition three_rows : DataFrame :=
  {| columns := ["col1"; "col2"];
     rows := [[VInt 1; VStr "a"]; [VInt 2; VStr "b"]; [VInt 3; VStr "c"]];
     index := None |}.

Definition service (reported : option Z) : bigquery :=
  {| remote_query := fun _ job_config =>
       match job_config !! "dry_run" with
       | Some (VBool true) =>
           Return {| total_bytes_processed := reported;
                     total_bytes_billed := None;
                     to_dataframe := Raise (GoogleCloudError "dry run") |}
       | _ =>
           Return {| total_bytes_processed := reported;
                     total_bytes_billed := reported;
                     to_dataframe := Return three_rows |}
       end;
     config_hasattr := fun key =>
       bool_decide (key ∈ ["dry_run"; "use_query_cache"; "priority";
                           "maximum_bytes_billed"; "use_legacy_sql";
                           "labels"]);
     config_setattr := fun key value job_config =>
       if String.eqb key "labels" then
         inl (SetterError "ValueError" "Pass a dict")
       else inr (<[key := value]> job_config) |}.

Definition ten_gib : PipelineConfig :=
  {| PROJECT_ID := "test-project"; MAX_BYTES_BILLED := 10 * 1024 ^ 3;
     LOCAL_CACHE_DIR := "data/cache"; CACHE_TTL_HOURS := 24 |}.

Definition empty_world : world := World [] [].

Example five_gib_proceeds :
  safe_query (service (Some (5 * 1024 ^ 3))) ten_gib "SELECT 1" None
             empty_world
  = (Return three_rows,
     World
       [(INFO, "Query cost estimate: 5,368,709,120 bytes ($0.0305 USD)");
        (INFO, "Proceeding with query execution ($0.0305 USD estimated cost)");
        (INFO, "Query completed successfully. Actual usage: 5,368,709,120 bytes ($0.0305 USD), Rows returned: 3")]
       [("SELECT 1", dry_run_config ten_gib);
        ("SELECT 1", QueryJobConfig false true (10 * 1024 ^ 3))]).
Proof. vm_compute. reflexivity. Qed.

Example twelve_gib_refused :
  safe_query (service (Some (12 * 1024 ^ 3))) ten_gib "SELECT 1" None
             empty_world
  = (Raise (QueryCostError "Query exceeds maximum bytes billed limit. Estimated: 12,884,901,888 bytes, Limit: 10,737,418,240 bytes ($0.0732 USD)"),
     World
       [(INFO, "Query cost estimate: 12,884,901,888 bytes ($0.0732 USD)");
        (ERROR, "Query exceeds maximum bytes billed limit. Estimated: 12,884,901,888 bytes, Limit: 10,737,418,240 bytes ($0.0732 USD)")]
       [("SELECT 1", dry_run_config ten_gib)]).
Proof. vm_compute. reflexivity. Qed.


Lemma cost_estimate_formula_witness :
  exists cost_estimate,
    fst (estimate_query_cost (service (Some (2 ^ 40))) ten_gib "SELECT 1"
                             empty_world)
      = Return ((2 ^ 40)%Z, cost_estimate) /\
    cost_estimate == COST_PER_TIB_USD.
Proof.
  destruct (cost_estimate_formula (service (Some (2 ^ 40))) ten_gib
              "SELECT 1" empty_world
              {| total_bytes_processed := Some (2 ^ 40);
                 total_bytes_billed := None;
                 to_dataframe := Raise (GoogleCloudError "dry run") |})
    as [(c & Hrun & _ & _ & Htib & _) _].
  - vm_compute. reflexivity.
  - exists c. split; [exact Hrun | apply Htib; reflexivity].
Defined.

(** C9 as stated fails for large estimates: at about 331 TiB the figure is
    not the exact product, and the figure of 331 TiB plus 3 TiB is not the
    sum of the two figures, whether added exactly or as doubles. *)
Lemma cost_is_not_linear_in_doubles :
  let a := 364488806866777 in
  let b := 3492610988405 in
  ~ cost_usd (a + b) == cost_usd a + cost_usd b /\
  ~ cost_usd (a + b) == Float.add (cost_usd a) (cost_usd b) /\
  ~ cost_usd a == inject_Z a / inject_Z BYTES_PER_TIB * COST_PER_TIB_USD /\
  fst (estimate_query_cost (service (Some (a + b))) ten_gib "SELECT 1"
                           empty_world)
    = Return (a + b, cost_usd (a + b)).
Proof.
  cbv zeta.
  split; [intros Heq; vm_compute in Heq; discriminate|].
  split; [intros Heq; vm_compute in Heq; discriminate|].
  split; [intros Heq; vm_compute in Heq; discriminate|].
  vm_compute. reflexivity.
Qed.

(** *** Further properties of the client *)

(** A failing dry run is not read as a free query: the error reaches the
    caller of [estimate_query_cost] and of [safe_query] unchanged, and
    [safe_query] sends nothing else to the service. *)
Theorem dry_run_failure_propagates bq config query cust w e :
  remote_query bq query (dry_run_config config) = Raise e ->
  let out := safe_query bq config query cust w in
  fst (estimate_query_cost bq config query w) = Raise e /\
  fst out = Raise e /\
  calls (snd out) = (calls w ++ [(query, dry_run_config config)])%list /\
  (ERROR, "Cost estimation failed: " ++ exn_str e) ∈ log (snd out).
Proof.
  intros Hfail out. subst out.
  unfold safe_query, estimate_query_cost, bind, client_query.
  fold (dry_run_config config). rewrite Hfail.
  destruct e; cbn; repeat split;
    apply elem_of_app; right; constructor.
Qed.

(** Within the ceiling and without customizations, the billed job is sent
    with [dry_run] off, the service's own result cache on and the ceiling as
    [maximum_bytes_billed]; what comes back (a frame or an error of the
    service) is handed to the caller unchanged. *)
Theorem safe_query_runs_billed_job bq config query cust w job :
  remote_query bq query (dry_run_config config) = Return job ->
  (or_zero (total_bytes_processed job) <= MAX_BYTES_BILLED config)%Z ->
  cust = None \/ cust = Some [] ->
  let billed := QueryJobConfig false true (MAX_BYTES_BILLED config) in
  let out := safe_query bq config query cust w in
  calls (snd out) =
    (calls w ++ [(query, dry_run_config config); (query, billed)])%list /\
  fst out = execution_outcome (remote_query bq query billed).
Proof.
  intros Hjob Hle Hcust billed out.
  pose proof (safe_query_within_limit bq config query cust w job Hjob Hle)
    as Hin.
  cbv zeta in Hin. fold billed out in Hin.
  assert (fst (customize bq cust billed w) = Return billed) as Hc
    by (destruct Hcust as [-> | ->]; reflexivity).
  rewrite Hc in Hin. exact Hin.
Qed.

(** Job customizations are read only after the ceiling check: above the
    ceiling the outcome of [safe_query] is the same whatever customizations
    are passed, so none of them can force a refused query through. *)
Theorem customizations_cannot_bypass_ceiling bq config query cust1 cust2 w job :
  remote_query bq query (dry_run_config config) = Return job ->
  (or_zero (total_bytes_processed job) > MAX_BYTES_BILLED config)%Z ->
  safe_query bq config query cust1 w = safe_query bq config query cust2 w.
Proof.
  intros Hjob Hgt.
  destruct (estimate_query_cost_ok bq config query w job Hjob) as [lg Hest].
  unfold safe_query, bind. rewrite Hest.
  assert ((or_zero (total_bytes_processed job)
           >? MAX_BYTES_BILLED config)%Z = true) as ->
    by (apply Z.gtb_lt; lia).
  reflexivity.
Qed.

(** The attribute names a list of customizations mentions. *)
Definition names (items : list (string * value)) : list string :=
  map fst items.

(** The customization loop, for customizations whose setters store the
    value they are given: the loop ends without raising, an attribute that
    [QueryJobConfig] does not have is never set (and is reported), an
    attribute no item names keeps its value, and for an attribute it has
    the last item naming it wins. *)
Theorem apply_customizations_lookup bq items job_config w :
  (forall key value cfg,
     (key, value) ∈ items -> config_hasattr bq key = true ->
     config_setattr bq key value cfg = inr (<[key := value]> cfg)) ->
  let out := apply_customizations bq items job_config w in
  exists final,
    fst out = Return final /\
    (forall key, config_hasattr bq key = false ->
       final !! key = job_config !! key) /\
    (forall key, key ∉ names items -> final !! key = job_config !! key) /\
    (forall key value before after,
       items = (before ++ (key, value) :: after)%list ->
       key ∉ names after ->
       config_hasattr bq key = true ->
       final !! key = Some value) /\
    (forall key value,
       (key, value) ∈ items -> config_hasattr bq key = false ->
       (WARNING, "Unknown job config parameter: " ++ key) ∈ log (snd out)).
Proof.
  cbv zeta. revert job_config w.
  assert (forall items job_config w record,
            record ∈ log w ->
            record ∈ log (snd (apply_customizations bq items job_config w)))
    as Hmono.
  { clear. induction items as [|[k v] rest IH]; intros cfg w record Hin;
      simpl; [exact Hin|].
    destruct (config_hasattr bq k).
    - destruct (config_setattr bq k v cfg); [exact Hin | now apply IH].
    - unfold bind, logger. simpl. apply IH. simpl.
      apply elem_of_app. now left. }
  induction items as [|[k v] rest IH]; intros job_config w Hstore.
  - simpl. exists job_config. repeat split; auto.
    + intros key value before after Heq. destruct before; discriminate.
    + intros key value Hin. inversion Hin.
  - assert (forall key value cfg,
              (key, value) ∈ rest -> config_hasattr bq key = true ->
              config_setattr bq key value cfg = inr (<[key := value]> cfg))
      as Hrest by (intros key value cfg Hin; apply Hstore; now right).
    simpl. destruct (config_hasattr bq k) eqn:Hk.
    + rewrite (Hstore k v job_config) by (try left; assumption).
      destruct (IH (<[k := v]> job_config) w Hrest)
        as (final & Hval & Hunk & Hnot & Hlast & Hwarn).
      exists final. split; [exact Hval|]. split; [|split; [|split]].
      * intros key Hkey. rewrite Hunk by exact Hkey.
        apply lookup_insert_ne. congruence.
      * intros key Hkey. unfold names in Hkey. simpl in Hkey.
        apply not_elem_of_cons in Hkey as [Hne Hkey].
        rewrite Hnot by exact Hkey. now apply lookup_insert_ne.
      * intros key value [|b before] after Heq Hafter Hattr.
        -- simplify_eq/=.
           rewrite Hnot by exact Hafter. apply lookup_insert_eq.
        -- simplify_eq/=. eapply Hlast; eauto.
      * intros key value Hin Hattr.
        apply elem_of_cons in Hin as [Heq|Hin];
          [simplify_eq/=; congruence|].
        eapply Hwarn; eauto.
    + unfold bind, logger. simpl.
      set (w' := World _ _).
      destruct (IH job_config w' Hrest)
        as (final & Hval & Hunk & Hnot & Hlast & Hwarn).
      exists final. split; [exact Hval|]. split; [|split; [|split]].
      * exact Hunk.
      * intros key Hkey. unfold names in Hkey. simpl in Hkey.
        apply not_elem_of_cons in Hkey as [Hne Hkey]. now apply Hnot.
      * intros key value [|b before] after Heq Hafter Hattr.
        -- simplify_eq/=; congruence.
        -- simplify_eq/=. eapply Hlast; eauto.
      * intros key value Hin Hattr.
        apply elem_of_cons in Hin as [Heq|Hin].
        -- simplify_eq/=. apply Hmono. subst w'. simpl.
           apply elem_of_app. right. constructor.
        -- eapply Hwarn; eauto.
Qed.

Lemma apply_customizations_rejected bq before key value after e :
  (forall k v, (k, v) ∈ before -> config_hasattr bq k = false) ->
  config_hasattr bq key = true ->
  forall job_config w,
    config_setattr bq key value job_config = inl e ->
    let out :=
      apply_customizations bq (before ++ (key, value) :: after) job_config w in
    fst out = Raise (raised e) /\
    exists records,
      log (snd out) = (log w ++ records)%list /\
      forall record, record ∈ records -> fst record = WARNING.
Proof.
  intros Hbefore Hattr.
  induction before as [|[k v] before IH]; intros job_config w Hrej; cbv zeta.
  - simpl. rewrite Hattr, Hrej. split; [reflexivity|].
    exists []. split; [now rewrite app_nil_r|]. intros r Hr. inversion Hr.
  - simpl. rewrite (Hbefore k v) by left.
    unfold bind, logger. cbn [fst snd].
    set (w' := World _ _).
    assert (forall k' v', (k', v') ∈ before -> config_hasattr bq k' = false)
      as Hbefore' by (intros k' v' Hin; apply (Hbefore k' v'); now right).
    destruct (IH Hbefore' job_config w' Hrej)
      as (Hval & records & Hlog & Hwarn).
    split; [exact Hval|].
    exists ((WARNING, "Unknown job config parameter: " ++ k) :: records).
    split.
    + rewrite Hlog. subst w'. cbn [log]. now rewrite <- app_assoc.
    + intros r Hr. apply elem_of_cons in Hr as [->|Hr]; [reflexivity|].
      now apply Hwarn.
Qed.

(** A customization that [QueryJobConfig] rejects ends [safe_query] after
    the dry run: the setter's exception reaches the caller as it is, the
    billed job is never sent, and [safe_query], whose customization loop
    stands outside its [try] blocks, logs no error for it. *)
Theorem rejected_customization_aborts
    bq config query before key value after w job e :
  remote_query bq query (dry_run_config config) = Return job ->
  (or_zero (total_bytes_processed job) <= MAX_BYTES_BILLED config)%Z ->
  (forall k v, (k, v) ∈ before -> config_hasattr bq k = false) ->
  config_hasattr bq key = true ->
  config_setattr bq key value
    (QueryJobConfig false true (MAX_BYTES_BILLED config)) = inl e ->
  let out := safe_query bq config query
               (Some (before ++ (key, value) :: after)%list) w in
  fst out = Raise (raised e) /\
  calls (snd out) = (calls w ++ [(query, dry_run_config config)])%list /\
  (forall msg, (ERROR, msg) ∈ log (snd out) -> (ERROR, msg) ∈ log w).
Proof.
  intros Hjob Hle Hbefore Hattr Hrej out.
  set (billed := QueryJobConfig false true (MAX_BYTES_BILLED config)) in *.
  set (items := (before ++ (key, value) :: after)%list) in *.
  assert (forall w',
            customize bq (Some items) billed w' =
            apply_customizations bq items billed w') as Hcust.
  { intros w'. unfold customize, items. destruct before; reflexivity. }
  pose proof (safe_query_within_limit bq config query (Some items) w job
                Hjob Hle) as Hin.
  cbv zeta in Hin. fold billed out in Hin. rewrite Hcust in Hin.
  destruct (apply_customizations_rejected bq before key value after e
              Hbefore Hattr billed w Hrej) as (Hval & _).
  fold items in Hval. rewrite Hval in Hin.
  destruct Hin as (Hcalls & Hres & _).
  split; [exact Hres|]. split; [exact Hcalls|].
  intros msg. subst out. unfold safe_query, estimate_query_cost, bind,
    client_query.
  fold (dry_run_config config). rewrite Hjob. cbn [logger ret fst snd log].
  assert ((or_zero (total_bytes_processed job)
           >? MAX_BYTES_BILLED config)%Z = false) as ->
    by (rewrite Z.gtb_ltb; apply Z.ltb_ge; lia).
  cbn [logger ret fst snd log]. fold billed.
  fold (customize bq (Some items) billed). rewrite Hcust.
  set (w1 := World _ _).
  destruct (apply_customizations_rejected bq before key value after e
              Hbefore Hattr billed w1 Hrej) as (Hval1 & records & Hlog & Hwarn).
  fold items in Hval1, Hlog.
  destruct (apply_customizations bq items billed w1) as [r w2].
  cbn [fst snd] in Hval1, Hlog. subst r. cbn [ret fst snd].
  rewrite Hlog. subst w1. cbn [log].
  rewrite !elem_of_app. intros [[[Hin|Hin]|Hin]|Hin]; [exact Hin| | |].
  - apply list_elem_of_singleton in Hin. discriminate.
  - apply list_elem_of_singleton in Hin. discriminate.
  - apply Hwarn in Hin. discriminate.
Qed.

(** A dry run that reports no byte count is taken as zero bytes: the
    currency figure is zero and the query is refused only under a negative
    ceiling. *)
Theorem missing_estimate_counts_as_zero bq config query cust w job :
  remote_query bq query (dry_run_config config) = Return job ->
  total_bytes_processed job = None ->
  let out := safe_query bq config query cust w in
  (exists cost_estimate,
     fst (estimate_query_cost bq config query w) =
       Return (0%Z, cost_estimate) /\ cost_estimate == 0) /\
  (refused config query w out <-> (MAX_BYTES_BILLED config < 0)%Z).
Proof.
  intros Hjob Hnone out. split.
  - destruct (estimate_query_cost_ok bq config query w job Hjob) as [lg Hest].
    rewrite Hest, Hnone. simpl. eexists. split; reflexivity.
  - pose proof (safe_query_over_limit bq config query cust w job Hjob) as Hover.
    pose proof (within_limit_not_refused bq config query cust w job Hjob)
      as Hwithin.
    rewrite Hnone in Hover, Hwithin. simpl in Hover, Hwithin.
    fold out in Hover, Hwithin. split.
    + intros Href.
      destruct (Z_lt_le_dec (MAX_BYTES_BILLED config) 0) as [Hlt|Hle];
        [exact Hlt|].
      destruct (Hwithin Hle Href).
    + intros Hlt. destruct Hover as [Hres Hcalls]; [lia|].
      split; [eexists; exact Hres | exact Hcalls].
Qed.

(** *** The further properties on the concrete service *)

(** A service that cannot be reached. *)
Definition unreachable : bigquery :=
  {| remote_query := fun _ _ => Raise (GoogleCloudError "Service unavailable");
     config_hasattr := config_hasattr (service None);
     config_setattr := config_setattr (service None) |}.

Lemma dry_run_failure_propagates_witness :
  let out := safe_query unreachable ten_gib "SELECT 1" None empty_world in
  fst (estimate_query_cost unreachable ten_gib "SELECT 1" empty_world) =
    Raise (GoogleCloudError "Service unavailable") /\
  fst out = Raise (GoogleCloudError "Service unavailable") /\
  calls (snd out) =
    (calls empty_world ++ [("SELECT 1", dry_run_config ten_gib)])%list /\
  (ERROR, "Cost estimation failed: " ++
          exn_str (GoogleCloudError "Service unavailable")) ∈ log (snd out).
Proof.
  apply (dry_run_failure_propagates unreachable ten_gib "SELECT 1" None
           empty_world (GoogleCloudError "Service unavailable")).
  reflexivity.
Defined.

Lemma safe_query_runs_billed_job_witness :
  let billed := QueryJobConfig false true (MAX_BYTES_BILLED ten_gib) in
  let out := safe_query (service (Some (5 * 1024 ^ 3))) ten_gib "SELECT 1"
                        None empty_world in
  calls (snd out) =
    (calls empty_world ++
     [("SELECT 1", dry_run_config ten_gib); ("SELECT 1", billed)])%list /\
  fst out =
    execution_outcome
      (remote_query (service (Some (5 * 1024 ^ 3))) "SELECT 1" billed).
Proof.
  apply (safe_query_runs_billed_job (service (Some (5 * 1024 ^ 3))) ten_gib
           "SELECT 1" None empty_world
           {| total_bytes_processed := Some (5 * 1024 ^ 3);
              total_bytes_billed := None;
              to_dataframe := Raise (GoogleCloudError "dry run") |}).
  - vm_compute. reflexivity.
  - vm_compute. discriminate.
  - left. reflexivity.
Defined.

(** Asking for a higher [maximum_bytes_billed] does not get a refused query
    through. *)
Lemma customizations_cannot_bypass_ceiling_witness :
  safe_query (service (Some (12 * 1024 ^ 3))) ten_gib "SELECT 1" None
             empty_world =
  safe_query (service (Some (12 * 1024 ^ 3))) ten_gib "SELECT 1"
             (Some [("maximum_bytes_billed", VInt (1024 ^ 5))]) empty_world.
Proof.
  apply (customizations_cannot_bypass_ceiling
           (service (Some (12 * 1024 ^ 3))) ten_gib "SELECT 1" None
           (Some [("maximum_bytes_billed", VInt (1024 ^ 5))]) empty_world
           {| total_bytes_processed := Some (12 * 1024 ^ 3);
              total_bytes_billed := None;
              to_dataframe := Raise (GoogleCloudError "dry run") |}).
  - vm_compute. reflexivity.
  - vm_compute. reflexivity.
Defined.

Definition mixed_customizations : list (string * value) :=
  [("priority", VStr "BATCH"); ("bogus", VInt 1);
   ("priority", VStr "INTERACTIVE")].

Lemma apply_customizations_lookup_witness :
  let out := apply_customizations (service None) mixed_customizations
                                  (QueryJobConfig false true 0) empty_world in
  exists final,
    fst out = Return final /\
    final !! "priority" = Some (VStr "INTERACTIVE") /\
    final !! "bogus" = None /\
    (WARNING, "Unknown job config parameter: bogus") ∈ log (snd out).
Proof.
  intros out.
  destruct (apply_customizations_lookup (service None) mixed_customizations
              (QueryJobConfig false true 0) empty_world)
    as (final & Hval & Hunknown & _ & Hlast & Hwarn).
  - intros key value cfg Hin Hattr. cbn [service config_setattr].
    destruct (String.eqb key "labels") eqn:Hkey; [|reflexivity].
    apply String.eqb_eq in Hkey. subst key. exfalso.
    repeat (apply elem_of_cons in Hin as [Hin|Hin]; [discriminate|]).
    inversion Hin.
  - exists final. split; [exact Hval|]. split; [|split].
    + apply (Hlast "priority" (VStr "INTERACTIVE")
               [("priority", VStr "BATCH"); ("bogus", VInt 1)] []).
      * reflexivity.
      * intros Hin. inversion Hin.
      * reflexivity.
    + rewrite (Hunknown "bogus"); reflexivity.
    + apply (Hwarn "bogus" (VInt 1)); [right; left | reflexivity].
Defined.

Lemma rejected_customization_aborts_witness :
  let out := safe_query (service (Some (5 * 1024 ^ 3))) ten_gib "SELECT 1"
               (Some ([("bogus", VInt 1)] ++
                      ("labels", VInt 1) :: [("priority", VStr "BATCH")])%list)
               empty_world in
  fst out = Raise (raised (SetterError "ValueError" "Pass a dict")) /\
  calls (snd out) =
    (calls empty_world ++ [("SELECT 1", dry_run_config ten_gib)])%list /\
  (forall msg, (ERROR, msg) ∈ log (snd out) -> (ERROR, msg) ∈ log empty_world).
Proof.
  apply (rejected_customization_aborts (service (Some (5 * 1024 ^ 3))) ten_gib
           "SELECT 1" [("bogus", VInt 1)] "labels" (VInt 1)
           [("priority", VStr "BATCH")] empty_world
           {| total_bytes_processed := Some (5 * 1024 ^ 3);
              total_bytes_billed := None;
              to_dataframe := Raise (GoogleCloudError "dry run") |}
           (SetterError "ValueError" "Pass a dict")).
  - vm_compute. reflexivity.
  - vm_compute. discriminate.
  - intros k v Hin. apply list_elem_of_singleton in Hin.
    injection Hin as -> ->. reflexivity.
  - reflexivity.
  - reflexivity.
Defined.

Lemma missing_estimate_counts_as_zero_witness :
  let out := safe_query (service None) ten_gib "SELECT 1" None empty_world in
  (exists cost_estimate,
     fst (estimate_query_cost (service None) ten_gib "SELECT 1" empty_world) =
       Return (0%Z, cost_estimate) /\ cost_estimate == 0) /\
  (refused ten_gib "SELECT 1" empty_world out <->
   (MAX_BYTES_BILLED ten_gib < 0)%Z).
Proof.
  apply (missing_estimate_counts_as_zero (service None) ten_gib "SELECT 1"
           None empty_world
           {| total_bytes_processed := None;
              total_bytes_billed := None;
              to_dataframe := Raise (GoogleCloudError "dry run") |}).
  - vm_compute. reflexivity.
  - reflexivity.
Defined.

End CostAwareClient.

(** ** [cache/query_cache.py] *)

Module QueryCache.
Import Py.

(** What a compute function can hand back. *)
Inductive object :=
| NoneObj
| DataFrameObj (df : DataFrame)
| StrObj (s : string)
| IntObj (z : Z)
| ListObj (items : list value)
| DictObj (items : list (string * value)).

(** [isinstance(o, pd.DataFrame)] *)
Definition is_DataFrame (o : object) : bool :=
  match o with DataFrameObj _ => true | _ => false end.

(** [str(type(o))], as an f-string renders [type(o)]. *)
Definition type_str (o : object) : string :=
  "<class '" ++
  match o with
  | NoneObj => "NoneType"
  | DataFrameObj _ => "pandas.core.frame.DataFrame"
  | StrObj _ => "str"
  | IntObj _ => "int"
  | ListObj _ => "list"
  | DictObj _ => "dict"
  end ++ "'>".

(** The Parquet reader and writer of pandas, on the bytes of a file:
    [to_parquet_bytes] is the serialisation done by
    [df.to_parquet(..., compression="snappy", index=False)], which leaves
    the index of the frame out of the file, and [read_parquet_bytes] the
    parsing done by [pd.read_parquet]; either may raise. *)
Class Parquet := {
  to_parquet_bytes : DataFrame -> result string;
  read_parquet_bytes : string -> result DataFrame }.

(** A file of the cache directory. *)
Record file := File {
  st_mtime : Q;
  content : string }.

Definition st_size (f : file) : nat := String.length (content f).

(** The world a [QueryCache] runs in: the listing of its cache directory
    (file name to file), the wall clock in seconds, whether the directory
    accepts writes, the bytes left on the device, the log, and how many
    times the compute function has been invoked. *)
Record world := World {
  files : gmap string file;
  clock : Q;
  writable : bool;
  disk_free : nat;
  log : list log_record;
  compute_calls : nat }.

Definition logger (lvl : level) (msg : string) : M world unit :=
  fun w => (tt, World (files w) (clock w) (writable w) (disk_free w)
                      (log w ++ [(lvl, msg)]) (compute_calls w)).

(** [time.time()] *)
Definition time_time : M world Q := fun w => (clock w, w).

(** [path.stat()] guarded by [path.exists()]: [None] when there is no
    such file. *)
Definition path_stat (name : string) : M world (option file) :=
  fun w => (files w !! name, w).

(** Opening [name] for writing truncates it, then the bytes go to the same
    file: when the device fills up the write raises and what was written
    so far stays. *)
Definition write_file (name data : string) : M world (result unit) :=
  fun w =>
    if writable w then
      let reclaimed :=
        match files w !! name with Some f => st_size f | None => O end in
      let room := (disk_free w + reclaimed)%nat in
      if (String.length data <=? room)%nat then
        (Return tt,
         World (<[name := File (clock w) data]> (files w)) (clock w)
               (writable w) (room - String.length data)
               (log w) (compute_calls w))
      else
        (Raise (OSError "[Errno 28] No space left on device"),
         World (<[name := File (clock w) (substring 0 room data)]> (files w))
               (clock w) (writable w) O (log w) (compute_calls w))
    else
      (Raise (OSError ("[Errno 13] Permission denied: '" ++ name ++ "'")), w).

(** Invoking the compute function: the [n]-th invocation (counted from 0
    over the life of the world) yields [compute_fn n]. *)
Definition call (compute_fn : nat -> result object)
    : M world (result object) :=
  fun w => (compute_fn (compute_calls w),
            World (files w) (clock w) (writable w) (disk_free w) (log w)
                  (S (compute_calls w))).

Definition Qltb (x y : Q) : bool := negb (Qle_bool y x).

(** The [QueryCache] object after [__init__]. *)
Record QueryCache := {
  cache_dir : string;
  ttl_hours : Z }.

Definition __init__ (config : PipelineConfig) : M world QueryCache :=
  let self := {| cache_dir := LOCAL_CACHE_DIR config;
                 ttl_hours := CACHE_TTL_HOURS config |} in
  logger INFO ("Query cache initialized: " ++ cache_dir self ++
               " (TTL: " ++ pretty (ttl_hours self) ++ " hours)") >>
  ret self.

Section Methods.
Context {codec : Parquet}.
Context {V : Type} `{Repr V}.

(** [df.to_parquet(cache_path, compression="snappy", index=False)] *)
Definition to_parquet (df : DataFrame) (name : string)
    : M world (result unit) :=
  match to_parquet_bytes df with
  | Raise e => ret (Raise e)
  | Return data => write_file name data
  end.

(** [pd.read_parquet(cache_path)] *)
Definition read_parquet (name : string) : M world (result DataFrame) :=
  fun w =>
    match files w !! name with
    | Some f => (read_parquet_bytes (content f), w)
    | None =>
        (Raise (OtherException "FileNotFoundError"
                  ("[Errno 2] No such file or directory: '" ++ name ++ "'")),
         w)
    end.

(** Items of a [dict] have pairwise distinct names, so comparing two of
    them as tuples is decided by the names. *)
Definition item_le (a b : string * V) : Prop :=
  String_as_OT.compare (fst a) (fst b) <> Gt.

#[local] Instance item_le_dec a b : Decision (item_le a b).
Proof. unfold item_le. solve_decision. Defined.

(** [sorted(params.items())] *)
Definition sorted (items : list (string * V)) : list (string * V) :=
  merge_sort item_le items.

Definition _generate_cache_key (self : QueryCache) (query : string)
    (params : option (list (string * V))) : M world string :=
  (* combine query and params into a single string *)
  let cache_input := strip query in
  let cache_input :=
    match params with
    | Some ((_ :: _) as items) =>
        let sorted_params := sorted items in
        let params_str := repr sorted_params in
        cache_input ++ "__PARAMS__" ++ params_str
    | _ => cache_input
    end in
  (* SHA256 hash, first 16 characters *)
  let cache_key := slice_to 16 (SHA256.hexdigest cache_input) in
  logger DEBUG ("Generated cache key: " ++ cache_key) >>
  ret cache_key.

Definition _is_cache_valid (self : QueryCache) (cache_name : string)
    : M world bool :=
  let* st := path_stat cache_name in
  match st with
  | None => ret false
  | Some st =>
      let mod_time := st_mtime st in
      let* current_time := time_time in
      let age_hours := ((current_time - mod_time) / 3600)%Q in
      let is_valid := Qltb age_hours (inject_Z (ttl_hours self)) in
      (if is_valid then
         logger DEBUG ("Cache hit: " ++ cache_name ++
                       " (age: " ++ format_fixed 1 age_hours ++
                       "h, TTL: " ++ pretty (ttl_hours self) ++ "h)")
       else
         logger DEBUG ("Cache expired: " ++ cache_name ++
                       " (age: " ++ format_fixed 1 age_hours ++
                       "h, TTL: " ++ pretty (ttl_hours self) ++ "h)")) >>
      ret is_valid
  end.

(** The inner [try] of [get_or_compute]: write, then log the size. *)
Definition cache_the_result (cache_filename : string)
    (result_df : DataFrame) : M world unit :=
  let* r := to_parquet result_df cache_filename in
  match r with
  | Raise e => logger ERROR ("Failed to cache result: " ++ exn_str e)
  | Return _ =>
      let* st := path_stat cache_filename in
      match st with
      | Some st =>
          logger INFO
            ("Result cached: " ++ cache_filename ++ " (" ++
             format_commas (Z.of_nat (df_len result_df)) ++ " rows, " ++
             format_fixed 1
               (inject_Z (Z.of_nat (st_size st)) / 1024 / 1024)%Q ++
             " MB)")
      | None =>
          logger ERROR
            ("Failed to cache result: [Errno 2] No such file or directory: '"
             ++ cache_filename ++ "'")
      end
  end.

(** The outer [try] of [get_or_compute]. *)
Definition compute_new_result (cache_filename : string)
    (compute_fn : nat -> result object) : M world (result DataFrame) :=
  let* result_df := call compute_fn in
  match result_df with
  | Raise e => ret (Raise e)
  | Return NoneObj =>
      logger WARNING "Compute function returned None" >>
      ret (Return DataFrame_new)
  | Return (DataFrameObj result_df) =>
      (if df_empty result_df then
         logger WARNING "Compute function returned empty DataFrame"
       else
         cache_the_result cache_filename result_df) >>
      ret (Return result_df)
  | Return other =>
      ret (Raise (TypeError
             ("Compute function must return a pandas DataFrame, got " ++
              type_str other)))
  end.

(** The guarded read of [get_or_compute]: the cached frame when the entry is
    fresh and loads, [None] otherwise. *)
Definition load_cached (self : QueryCache) (cache_filename : string)
    (force_refresh : bool) : M world (option DataFrame) :=
  if negb force_refresh then
    let* valid := _is_cache_valid self cache_filename in
    if valid then
      logger INFO ("Loading cached result: " ++ cache_filename) >>
      let* r := read_parquet cache_filename in
      match r with
      | Return cached_df =>
          logger INFO ("Cache hit: " ++
                       format_commas (Z.of_nat (df_len cached_df)) ++
                       " rows loaded") >>
          ret (Some cached_df)
      | Raise e =>
          logger WARNING ("Failed to load cache file " ++
                          cache_filename ++ ": " ++ exn_str e ++
                          ". Will re-compute.") >>
          ret None
      end
    else ret None
  else ret None.

Definition get_or_compute (self : QueryCache) (query : string)
    (compute_fn : nat -> result object)
    (params : option (list (string * V))) (force_refresh : bool)
    : M world (result DataFrame) :=
  (* generate cache key and file path *)
  let* cache_key := _generate_cache_key self query params in
  let cache_filename := "query_" ++ cache_key ++ ".parquet" in
  (* check for valid cache (unless force refresh is requested) *)
  let* cached := load_cached self cache_filename force_refresh in
  match cached with
  | Some cached_df => ret (Return cached_df)
  | None =>
      (* cache miss or force refresh: compute new result *)
      (if force_refresh then
         logger INFO ("Force refresh requested for: " ++ cache_filename)
       else
         logger INFO ("Cache miss for: " ++ cache_filename)) >>
      logger INFO "Computing new result..." >>
      let* r := compute_new_result cache_filename compute_fn in
      match r with
      | Raise e =>
          logger ERROR ("Compute function failed: " ++ exn_str e) >>
          ret (Raise e)
      | Return result_df => ret (Return result_df)
      end
  end.

(** *** Properties of the key derivation *)

Definition is_hex_digit (c : ascii) : bool :=
  existsb (Ascii.eqb c) (list_ascii_of_string "0123456789abcdef").

Definition is_hex (s : string) : Prop :=
  Forall (fun c => is_hex_digit c = true) (list_ascii_of_string s).

Lemma hex_digit_is_hex n : is_hex_digit (SHA256.hex_digit n) = true.
Proof. unfold SHA256.hex_digit. repeat case_match; reflexivity. Qed.

Lemma is_hex_app s1 s2 : is_hex s1 -> is_hex s2 -> is_hex (s1 ++ s2).
Proof.
  unfold is_hex. induction s1 as [|c s1 IH]; simpl; intros H1 H2.
  - exact H2.
  - inversion H1; subst. constructor; auto.
Qed.

Lemma hex8_is_hex w : is_hex (SHA256.hex8 w).
Proof.
  unfold is_hex, SHA256.hex8. rewrite list_ascii_of_string_of_list_ascii.
  apply Forall_forall. intros c Hc. apply list_elem_of_In, in_map_iff in Hc.
  destruct Hc as (i & <- & _). apply hex_digit_is_hex.
Qed.

Lemma hex8_length w : String.length (SHA256.hex8 w) = 8%nat.
Proof. reflexivity. Qed.

Lemma append_length s1 s2 :
  String.length (s1 ++ s2) = (String.length s1 + String.length s2)%nat.
Proof. induction s1 as [|c s1 IH]; simpl; [reflexivity | now rewrite IH]. Qed.

Lemma hexdigest_length data : String.length (SHA256.hexdigest data) = 64%nat.
Proof.
  unfold SHA256.hexdigest. rewrite !append_length, !hex8_length. reflexivity.
Qed.

Lemma hexdigest_is_hex data : is_hex (SHA256.hexdigest data).
Proof.
  unfold SHA256.hexdigest. repeat apply is_hex_app; apply hex8_is_hex.
Qed.

Lemma slice_to_length n s :
  (n <= String.length s)%nat -> String.length (slice_to n s) = n.
Proof.
  unfold slice_to. revert s.
  induction n as [|n IH]; intros [|c s] Hn; simpl in *;
    try lia; try reflexivity.
  rewrite IH by lia. reflexivity.
Qed.

Lemma slice_to_is_hex n s : is_hex s -> is_hex (slice_to n s).
Proof.
  unfold slice_to, is_hex. revert s.
  induction n as [|n IH]; intros [|c s] Hs; simpl; try constructor.
  - inversion Hs; assumption.
  - apply IH. inversion Hs; assumption.
Qed.

(** The order [sorted] uses is a total preorder on the names. *)
Lemma compare_lt_not_gt (x y : string) :
  String_as_OT.lt x y -> String_as_OT.compare x y <> Gt.
Proof. unfold String_as_OT.lt. congruence. Qed.

Lemma compare_not_gt (x y : string) :
  String_as_OT.compare x y <> Gt <-> x = y \/ String_as_OT.lt x y.
Proof.
  destruct (String_as_OT.compare_spec x y) as [Hxy|Hxy|Hxy].
  - split; [auto | discriminate].
  - split; [auto | discriminate].
  - split; [congruence|]. intros [->|Hlt]; exfalso.
    + exact (irreflexivity String_as_OT.lt y Hxy).
    + apply (irreflexivity String_as_OT.lt x). etransitivity; eassumption.
Qed.

#[local] Instance item_le_trans : Transitive item_le.
Proof.
  intros a b c. unfold item_le. rewrite !compare_not_gt.
  intros [Hab|Hab] [Hbc|Hbc].
  - left. congruence.
  - right. rewrite Hab. exact Hbc.
  - right. rewrite <- Hbc. exact Hab.
  - right. etransitivity; eassumption.
Qed.

#[local] Instance item_le_total : Total item_le.
Proof.
  intros a b. unfold item_le.
  destruct (String_as_OT.compare_spec (fst a) (fst b)) as [Hab|Hab|Hab].
  - left. discriminate.
  - left. discriminate.
  - right. apply compare_lt_not_gt. exact Hab.
Qed.

Lemma item_le_antisym (a b : string * V) :
  item_le a b -> item_le b a -> fst a = fst b.
Proof.
  unfold item_le. rewrite !compare_not_gt.
  intros [Hab|Hab] [Hba|Hba]; auto.
  exfalso. apply (irreflexivity String_as_OT.lt (fst a)).
  etransitivity; eassumption.
Qed.

Lemma dict_item_unique (items : list (string * V)) a b :
  NoDup (map fst items) -> a ∈ items -> b ∈ items -> fst a = fst b -> a = b.
Proof.
  induction items as [|x items IH]; simpl; intros Hnd Ha Hb Hab.
  - inversion Ha.
  - apply NoDup_cons in Hnd as [Hx Hnd].
    apply elem_of_cons in Ha as [->|Ha]; apply elem_of_cons in Hb as [->|Hb].
    + reflexivity.
    + exfalso. apply Hx. rewrite Hab.
      apply list_elem_of_fmap. exists b. auto.
    + exfalso. apply Hx. rewrite <- Hab.
      apply list_elem_of_fmap. exists a. auto.
    + auto.
Qed.

(** Two dicts with the same items, inserted in any order, sort alike. *)
Lemma sorted_insertion_order (p1 p2 : list (string * V)) :
  NoDup (map fst p1) -> p1 ≡ₚ p2 -> sorted p1 = sorted p2.
Proof.
  intros Hnd Hperm. unfold sorted.
  apply (Sorted_unique_strong item_le).
  - intros x1 x2 Hx1 Hx2 H12 H21.
    rewrite merge_sort_Permutation in Hx1.
    rewrite merge_sort_Permutation, <- Hperm in Hx2.
    eapply dict_item_unique; eauto using item_le_antisym.
  - apply Sorted_merge_sort. apply _.
  - apply Sorted_merge_sort. apply _.
  - rewrite !merge_sort_Permutation. exact Hperm.
Qed.

Lemma generate_cache_key_digest self query params w :
  exists cache_input,
    fst (_generate_cache_key self query params w) =
    slice_to 16 (SHA256.hexdigest cache_input).
Proof. eexists. reflexivity. Qed.

Lemma generate_cache_key_shape self query params w :
  String.length (fst (_generate_cache_key self query params w)) = 16%nat /\
  is_hex (fst (_generate_cache_key self query params w)).
Proof.
  destruct (generate_cache_key_digest self query params w) as [data ->].
  split.
  - apply slice_to_length. rewrite hexdigest_length. lia.
  - apply slice_to_is_hex, hexdigest_is_hex.
Qed.

(** C3. The key is a function of the trimmed query text and of the items of
    the parameter dict, whatever their insertion order; it does not depend
    on the world, which only gains a debug record; and, with or without
    parameters, it is a string of 16 hexadecimal digits. *)
Theorem generate_cache_key_deterministic
    self1 self2 query1 query2 (p1 p2 : list (string * V)) w1 w2 :
  strip query1 = strip query2 ->
  NoDup (map fst p1) ->
  p1 ≡ₚ p2 ->
  let out1 := _generate_cache_key self1 query1 (Some p1) w1 in
  let out2 := _generate_cache_key self2 query2 (Some p2) w2 in
  fst out1 = fst out2 /\
  String.length (fst out1) = 16%nat /\
  is_hex (fst out1) /\
  snd out1 = World (files w1) (clock w1) (writable w1) (disk_free w1)
                   (log w1 ++ [(DEBUG, "Generated cache key: " ++ fst out1)])
                   (compute_calls w1) /\
  (forall params w,
     String.length (fst (_generate_cache_key self1 query1 params w)) = 16%nat
     /\ is_hex (fst (_generate_cache_key self1 query1 params w))).
Proof.
  intros Hq Hnd Hperm out1 out2.
  split; [|split; [|split; [|split]]];
    [| | | | intros params w; apply generate_cache_key_shape].
  - subst out1 out2. destruct p1 as [|i1 p1], p2 as [|i2 p2];
      cbv beta iota zeta delta [_generate_cache_key bind logger ret fst];
      rewrite Hq.
    + reflexivity.
    + apply Permutation_nil_l in Hperm. discriminate.
    + apply Permutation_nil_r in Hperm. discriminate.
    + rewrite (sorted_insertion_order _ _ Hnd Hperm). reflexivity.
  - apply generate_cache_key_shape.
  - apply generate_cache_key_shape.
  - reflexivity.
Qed.

(** *** Properties of the freshness check *)

Lemma Qltb_lt (x y : Q) : Qltb x y = true <-> (x < y)%Q.
Proof.
  unfold Qltb. rewrite negb_true_iff, <- not_true_iff_false, Qle_bool_iff.
  split; [apply Qnot_le_lt | apply Qlt_not_le].
Qed.

(** Age of a file in hours, as [_is_cache_valid] computes it. *)
Definition age_hours (w : world) (f : file) : Q :=
  ((clock w - st_mtime f) / 3600)%Q.

Lemma is_cache_valid_value self name w :
  fst (_is_cache_valid self name w) =
  match files w !! name with
  | Some f => Qltb (age_hours w f) (inject_Z (ttl_hours self))
  | None => false
  end.
Proof.
  unfold _is_cache_valid, bind, path_stat, time_time, ret.
  destruct (files w !! name) as [f|]; [|reflexivity].
  fold (age_hours w f).
  destruct (Qltb (age_hours w f) (inject_Z (ttl_hours self))); reflexivity.
Qed.

(** C5. The freshness check answers true exactly when the file exists and
    its age in hours is strictly below [ttl_hours]; a missing file is never
    fresh and a file older than [ttl_hours] is stale. *)
Theorem is_cache_valid_iff_fresh self name w :
  (fst (_is_cache_valid self name w) = true <->
   exists f, files w !! name = Some f /\
             (age_hours w f < inject_Z (ttl_hours self))%Q) /\
  (files w !! name = None -> fst (_is_cache_valid self name w) = false) /\
  (forall f, files w !! name = Some f ->
             (inject_Z (ttl_hours self) < age_hours w f)%Q ->
             fst (_is_cache_valid self name w) = false).
Proof.
  rewrite is_cache_valid_value. split; [|split].
  - destruct (files w !! name) as [f|].
    + rewrite Qltb_lt. split.
      * intros Hlt. exists f. auto.
      * intros (f' & [= <-] & Hlt). exact Hlt.
    + split; [discriminate | intros (f & [=] & _)].
  - intros ->. reflexivity.
  - intros f -> Hlt. apply not_true_iff_false. rewrite Qltb_lt.
    intros Hlt'. apply (Qlt_irrefl (age_hours w f)).
    eapply Qlt_trans; eassumption.
Qed.

(** *** Properties of [get_or_compute] *)

(** [w'] is [w] with more records in its log and nothing else changed. *)
Definition only_logs (w w' : world) : Prop :=
  files w' = files w /\ clock w' = clock w /\ writable w' = writable w /\
  disk_free w' = disk_free w /\ compute_calls w' = compute_calls w /\
  exists records, log w' = (log w ++ records)%list.

Lemma only_logs_refl w : only_logs w w.
Proof.
  repeat split. exists []. now rewrite app_nil_r.
Qed.

Lemma only_logs_trans w1 w2 w3 :
  only_logs w1 w2 -> only_logs w2 w3 -> only_logs w1 w3.
Proof.
  intros (Hf & Hc & Hw & Hd & Hn & l & Hl) (Hf' & Hc' & Hw' & Hd' & Hn' & l' & Hl').
  repeat split; try congruence.
  exists (l ++ l')%list. rewrite Hl', Hl, app_assoc. reflexivity.
Qed.

Lemma only_logs_mono w w' record :
  only_logs w w' -> record ∈ log w -> record ∈ log w'.
Proof.
  intros (_ & _ & _ & _ & _ & l & ->) Hin. apply elem_of_app. auto.
Qed.

Lemma logger_only_logs lvl msg w : only_logs w (snd (logger lvl msg w)).
Proof. repeat split. eexists. reflexivity. Qed.

Lemma logger_logged lvl msg w : (lvl, msg) ∈ log (snd (logger lvl msg w)).
Proof. simpl. apply elem_of_app. right. constructor. Qed.

Ltac fields := cbn [fst snd files clock writable disk_free log compute_calls].
Ltac run :=
  unfold bind, ret, logger, path_stat, time_time, read_parquet, call; fields.
Ltac close_only_logs :=
  repeat split; fields; rewrite <- ?app_assoc; eexists; reflexivity.

(** The file name [get_or_compute] derives for a query and its parameters. *)
Definition entry_name (self : QueryCache) (query : string)
    (params : option (list (string * V))) (w : world) : string :=
  "query_" ++ fst (_generate_cache_key self query params w) ++ ".parquet".

Lemma entry_name_indep self1 self2 query params w1 w2 :
  entry_name self1 query params w1 = entry_name self2 query params w2.
Proof. reflexivity. Qed.

Lemma generate_cache_key_only_logs self query params w :
  only_logs w (snd (_generate_cache_key self query params w)).
Proof. unfold _generate_cache_key. run. close_only_logs. Qed.

Lemma is_cache_valid_only_logs self name w :
  only_logs w (snd (_is_cache_valid self name w)).
Proof.
  unfold _is_cache_valid. run. destruct (files w !! name) as [f|].
  - destruct (Qltb _ _); close_only_logs.
  - apply only_logs_refl.
Qed.

(** The frame a non-forced call would load: the entry exists, is fresh and
    parses. *)
Definition fresh_entry (self : QueryCache) (name : string) (w : world)
    : option DataFrame :=
  match files w !! name with
  | Some f =>
      if Qltb (age_hours w f) (inject_Z (ttl_hours self)) then
        match read_parquet_bytes (content f) with
        | Return df => Some df
        | Raise _ => None
        end
      else None
  | None => None
  end.

Lemma load_cached_spec self name force w :
  fst (load_cached self name force w) =
    (if force then None else fresh_entry self name w) /\
  only_logs w (snd (load_cached self name force w)).
Proof.
  unfold load_cached, fresh_entry, _is_cache_valid.
  destruct force; cbn [negb].
  { split; [reflexivity | apply only_logs_refl]. }
  run. destruct (files w !! name) as [f|] eqn:Hf; fields.
  - fold (age_hours w f).
    destruct (Qltb (age_hours w f) (inject_Z (ttl_hours self))); fields.
    + rewrite Hf. destruct (read_parquet_bytes (content f)); fields;
        (split; [reflexivity | close_only_logs]).
    + split; [reflexivity | close_only_logs].
  - split; [reflexivity | apply only_logs_refl].
Qed.


Lemma fresh_entry_only_logs self name w w' :
  only_logs w w' -> fresh_entry self name w' = fresh_entry self name w.
Proof.
  intros (Hf & Hc & _). unfold fresh_entry, age_hours. rewrite Hf, Hc.
  reflexivity.
Qed.

(** Cache hit: the frame of the fresh entry is returned and nothing but the
    log changes; in particular the compute function is not invoked. *)
Lemma get_or_compute_hit self query compute_fn params w df :
  fresh_entry self (entry_name self query params w) w = Some df ->
  fst (get_or_compute self query compute_fn params false w) = Return df /\
  only_logs w (snd (get_or_compute self query compute_fn params false w)).
Proof.
  intros Hfresh. unfold get_or_compute, bind.
  pose proof (generate_cache_key_only_logs self query params w) as Hw0.
  unfold entry_name in Hfresh.
  destruct (_generate_cache_key self query params w) as [key w0].
  cbn [fst snd] in Hfresh, Hw0.
  destruct (load_cached_spec self ("query_" ++ key ++ ".parquet") false w0)
    as [Hval Hw1].
  rewrite (fresh_entry_only_logs _ _ _ _ Hw0), Hfresh in Hval.
  destruct (load_cached self ("query_" ++ key ++ ".parquet") false w0)
    as [cached w1].
  cbn [fst snd] in Hval, Hw1. subst cached. unfold ret. cbn [fst snd].
  split; [reflexivity | eapply only_logs_trans; eassumption].
Qed.

(** Cache miss or forced refresh: the call behaves as the compute step run in
    a world [w1] that differs from [w] by its log only. *)
Lemma get_or_compute_miss self query compute_fn params (force : bool) w :
  (if force then @None DataFrame
   else fresh_entry self (entry_name self query params w) w) = None ->
  exists w1,
    only_logs w w1 /\
    let name := entry_name self query params w in
    let out := compute_new_result name compute_fn w1 in
    only_logs (snd (load_cached self name force
                      (snd (_generate_cache_key self query params w)))) w1 /\
    fst (get_or_compute self query compute_fn params force w) = fst out /\
    only_logs (snd out)
              (snd (get_or_compute self query compute_fn params force w)) /\
    (forall e, fst out = Raise e ->
       (ERROR, "Compute function failed: " ++ exn_str e)
       ∈ log (snd (get_or_compute self query compute_fn params force w))).
Proof.
  intros Hmiss. unfold get_or_compute, bind.
  pose proof (generate_cache_key_only_logs self query params w) as Hw0.
  unfold entry_name in *.
  destruct (_generate_cache_key self query params w) as [key w0].
  cbn [fst snd] in *.
  set (name := "query_" ++ key ++ ".parquet") in *.
  destruct (load_cached_spec self name force w0) as [Hval Hw1].
  assert (fst (load_cached self name force w0) = None) as Hnone.
  { rewrite Hval. destruct force; [reflexivity|].
    rewrite (fresh_entry_only_logs _ _ _ _ Hw0). exact Hmiss. }
  clear Hval.
  destruct (load_cached self name force w0) as [cached w1].
  cbn [fst snd] in *. subst cached.
  set (announce := if force then logger _ _ else logger _ _).
  assert (only_logs w1 (snd (announce w1))) as Hw2
    by (subst announce; destruct force; apply logger_only_logs).
  destruct (announce w1) as [[] w2]. cbn [snd] in Hw2.
  pose proof (logger_only_logs INFO "Computing new result..." w2) as Hw3.
  destruct (logger INFO "Computing new result..." w2) as [[] w3].
  cbn [snd] in Hw3. exists w3. split.
  { eauto using only_logs_trans. }
  split.
  { eauto using only_logs_trans. }
  destruct (compute_new_result name compute_fn w3) as [[e|result_df] w4];
    cbn [fst snd].
  - split; [reflexivity|]. split; [apply logger_only_logs|].
    intros e' [= <-]. apply logger_logged.
  - split; [reflexivity|]. split; [apply only_logs_refl | discriminate].
Qed.

(** The device has room for [data] under [name] once the old bytes of that
    file are released. *)
Definition fits (name data : string) (w : world) : Prop :=
  (String.length data <=
   disk_free w + match files w !! name with
                 | Some f => st_size f
                 | None => 0
                 end)%nat.

Lemma cache_the_result_written name df data w :
  to_parquet_bytes df = Return data ->
  writable w = true ->
  fits name data w ->
  let w' := snd (cache_the_result name df w) in
  files w' = <[name := File (clock w) data]> (files w) /\
  clock w' = clock w /\ writable w' = writable w /\
  compute_calls w' = compute_calls w /\
  exists records, log w' = (log w ++ records)%list.
Proof.
  intros Hdata Hw Hfits. unfold cache_the_result, to_parquet, write_file, fits in *.
  run. rewrite Hdata. run. rewrite Hw.
  apply Nat.leb_le in Hfits. rewrite Hfits. fields.
  rewrite lookup_insert_eq. fields.
  repeat split. eexists. reflexivity.
Qed.

(** Whatever happens to the write, nothing but the entry itself, the free
    space and the log can change. *)
Lemma cache_the_result_frame name df w :
  let w' := snd (cache_the_result name df w) in
  (forall other, other <> name -> files w' !! other = files w !! other) /\
  clock w' = clock w /\ writable w' = writable w /\
  compute_calls w' = compute_calls w /\
  exists records, log w' = (log w ++ records)%list.
Proof.
  unfold cache_the_result, to_parquet, write_file. run.
  destruct (to_parquet_bytes df) as [e|data]; run.
  { repeat split. eexists. reflexivity. }
  destruct (writable w) eqn:Hw; fields.
  - destruct (String.length data <=? _)%nat; fields.
    + rewrite lookup_insert_eq. fields. repeat split; auto.
      * intros other Hne. now rewrite lookup_insert_ne.
      * eexists. reflexivity.
    + repeat split; auto.
      * intros other Hne. now rewrite lookup_insert_ne.
      * eexists. reflexivity.
  - repeat split; auto. eexists. reflexivity.
Qed.

(** The world right after the compute function returned. *)
Definition computed (w : world) : world :=
  World (files w) (clock w) (writable w) (disk_free w) (log w)
        (S (compute_calls w)).

Lemma compute_new_result_cases name compute_fn w :
  let out := compute_new_result name compute_fn w in
  match compute_fn (compute_calls w) with
  | Raise e => fst out = Raise e /\ only_logs (computed w) (snd out)
  | Return NoneObj =>
      fst out = Return DataFrame_new /\ only_logs (computed w) (snd out) /\
      (WARNING, "Compute function returned None") ∈ log (snd out)
  | Return (DataFrameObj df) =>
      fst out = Return df /\
      if df_empty df then
        only_logs (computed w) (snd out) /\
        (WARNING, "Compute function returned empty DataFrame") ∈ log (snd out)
      else
        snd out = snd (cache_the_result name df (computed w))
  | Return other =>
      fst out = Raise (TypeError
                  ("Compute function must return a pandas DataFrame, got " ++
                   type_str other)) /\
      only_logs (computed w) (snd out)
  end.
Proof.
  unfold compute_new_result. run. fold (computed w).
  destruct (compute_fn (compute_calls w)) as [e|[]]; fields;
    try (split; [reflexivity | apply only_logs_refl]).
  - split; [reflexivity|]. split; [close_only_logs|].
    apply elem_of_app. right. constructor.
  - split; [destruct (df_empty df); [reflexivity|];
            destruct (cache_the_result _ _ _); reflexivity|].
    destruct (df_empty df); fields.
    + split; [close_only_logs|]. apply elem_of_app. right. constructor.
    + destruct (cache_the_result _ _ _) as [[] w']. reflexivity.
Qed.

Lemma compute_new_result_calls name compute_fn w :
  compute_calls (snd (compute_new_result name compute_fn w)) =
  S (compute_calls w).
Proof.
  pose proof (compute_new_result_cases name compute_fn w) as Hc.
  cbv zeta in Hc.
  destruct (compute_fn (compute_calls w)) as [e|[]];
    try (destruct Hc as (_ & (_ & _ & _ & _ & -> & _)); reflexivity);
    try (destruct Hc as (_ & (_ & _ & _ & _ & -> & _) & _); reflexivity).
  destruct Hc as [_ Hc]. destruct (df_empty df).
  - destruct Hc as ((_ & _ & _ & _ & -> & _) & _). reflexivity.
  - rewrite Hc.
    destruct (cache_the_result_frame name df (computed w))
      as (_ & _ & _ & -> & _). reflexivity.
Qed.

(** The environment lets [dt] seconds pass. *)
Definition advance (dt : Q) (w : world) : world :=
  World (files w) (clock w + dt)%Q (writable w) (disk_free w) (log w)
        (compute_calls w).

(** Every call that does not hit the cache invokes the compute function
    exactly once. *)
Lemma get_or_compute_miss_calls self query compute_fn params (force : bool) w :
  (if force then @None DataFrame
   else fresh_entry self (entry_name self query params w) w) = None ->
  compute_calls (snd (get_or_compute self query compute_fn params force w)) =
  S (compute_calls w).
Proof.
  intros Hmiss.
  destruct (get_or_compute_miss self query compute_fn params force w Hmiss)
    as (w1 & Hw1 & _ & _ & (_ & _ & _ & _ & -> & _) & _).
  rewrite compute_new_result_calls.
  destruct Hw1 as (_ & _ & _ & _ & -> & _). reflexivity.
Qed.

Lemma Qltb_ge (x y : Q) : Qltb x y = false <-> (y <= x)%Q.
Proof.
  unfold Qltb. rewrite negb_false_iff. apply Qle_bool_iff.
Qed.

(** A stale or unreadable entry does not become loadable by waiting. *)
Lemma fresh_entry_stays_none self name w w' dt :
  fresh_entry self name w = None ->
  files w' = files w ->
  clock w' = (clock w + dt)%Q ->
  (0 <= dt)%Q ->
  fresh_entry self name w' = None.
Proof.
  unfold fresh_entry, age_hours. intros Hnone -> -> Hdt.
  destruct (files w !! name) as [f|]; [|reflexivity].
  destruct (Qltb ((clock w - st_mtime f) / 3600) _) eqn:Hage.
  - destruct (read_parquet_bytes (content f)); [|discriminate].
    destruct (Qltb ((clock w + dt - st_mtime f) / 3600) _); reflexivity.
  - apply Qltb_ge in Hage.
    assert (Qltb ((clock w + dt - st_mtime f) / 3600)
                 (inject_Z (ttl_hours self)) = false) as ->; [|reflexivity].
    apply Qltb_ge.
    assert ((clock w + dt - st_mtime f) / 3600 ==
            (clock w - st_mtime f) / 3600 + dt * (1 # 3600))%Q as ->
      by field.
    lra.
Qed.

(** A miss whose compute function returns a frame: the frame is returned,
    and when it is not empty the world is the one the write leaves, up to
    the log. *)
Lemma get_or_compute_computes_frame
    self query compute_fn params (force : bool) w df :
  (if force then @None DataFrame
   else fresh_entry self (entry_name self query params w) w) = None ->
  compute_fn (compute_calls w) = Return (DataFrameObj df) ->
  let name := entry_name self query params w in
  let out := get_or_compute self query compute_fn params force w in
  fst out = Return df /\
  exists w1,
    only_logs w w1 /\
    if df_empty df then only_logs (computed w1) (snd out)
    else only_logs (snd (cache_the_result name df (computed w1))) (snd out).
Proof.
  intros Hmiss Hdf name out.
  destruct (get_or_compute_miss self query compute_fn params force w Hmiss)
    as (w1 & Hw1 & _ & Hres & Hout & _).
  fold out name in Hres, Hout.
  pose proof (compute_new_result_cases name compute_fn w1) as Hc.
  cbv zeta in Hc.
  replace (compute_calls w1) with (compute_calls w) in Hc
    by (symmetry; apply Hw1).
  rewrite Hdf in Hc. destruct Hc as [Hval Hw2].
  split; [congruence|]. exists w1. split; [exact Hw1|].
  destruct (df_empty df).
  - destruct Hw2 as [Hw2 _]. eapply only_logs_trans; eassumption.
  - rewrite <- Hw2. exact Hout.
Qed.

(** C7. When the compute function returns an empty frame, [get_or_compute]
    returns that frame, the cache directory is left as it was, and a second
    call made any time later invokes the compute function again. *)
Theorem empty_result_is_not_cached
    self query compute_fn params (force1 force2 : bool) w df dt :
  fresh_entry self (entry_name self query params w) w = None ->
  compute_fn (compute_calls w) = Return (DataFrameObj df) ->
  df_empty df = true ->
  (0 <= dt)%Q ->
  let out1 := get_or_compute self query compute_fn params force1 w in
  let out2 := get_or_compute self query compute_fn params force2
                             (advance dt (snd out1)) in
  fst out1 = Return df /\
  files (snd out1) = files w /\
  compute_calls (snd out1) = S (compute_calls w) /\
  compute_calls (snd out2) = S (S (compute_calls w)).
Proof.
  intros Hnone Hdf Hempty Hdt out1 out2.
  assert ((if force1 then @None DataFrame
           else fresh_entry self (entry_name self query params w) w) = None)
    as Hmiss by (destruct force1; auto).
  destruct (get_or_compute_computes_frame self query compute_fn params
              force1 w df Hmiss Hdf) as (Hval & w1 & Hw1 & Hw2).
  fold out1 in Hval, Hw2. rewrite Hempty in Hw2.
  assert (files (snd out1) = files w) as Hfiles.
  { destruct Hw2 as (-> & _). apply Hw1. }
  assert (clock (snd out1) = clock w) as Hclock.
  { destruct Hw2 as (_ & -> & _). apply Hw1. }
  assert (compute_calls (snd out1) = S (compute_calls w)) as Hcalls.
  { destruct Hw2 as (_ & _ & _ & _ & -> & _). simpl. f_equal. apply Hw1. }
  repeat split; try assumption.
  subst out2. rewrite get_or_compute_miss_calls.
  - simpl. now rewrite Hcalls.
  - assert (fresh_entry self (entry_name self query params w)
                        (advance dt (snd out1)) = None) as Hstill.
    { eapply fresh_entry_stays_none with (dt := dt); eauto.
      simpl. now rewrite Hclock. }
    destruct force2; [reflexivity | exact Hstill].
Qed.


(** A miss that computes a non-empty frame and can write it: the entry holds
    the serialised frame, stamped with the time of the call. *)
Lemma get_or_compute_writes
    self query compute_fn params (force : bool) w df data :
  (if force then @None DataFrame
   else fresh_entry self (entry_name self query params w) w) = None ->
  compute_fn (compute_calls w) = Return (DataFrameObj df) ->
  df_empty df = false ->
  to_parquet_bytes df = Return data ->
  writable w = true ->
  fits (entry_name self query params w) data w ->
  let name := entry_name self query params w in
  let out := get_or_compute self query compute_fn params force w in
  fst out = Return df /\
  files (snd out) = <[name := File (clock w) data]> (files w) /\
  clock (snd out) = clock w /\
  compute_calls (snd out) = S (compute_calls w).
Proof.
  intros Hmiss Hdf Hne Hdata Hwr Hfits name out.
  destruct (get_or_compute_computes_frame self query compute_fn params
              force w df Hmiss Hdf) as (Hval & w1 & Hw1 & Hw2).
  fold out name in Hval, Hw2. rewrite Hne in Hw2.
  destruct Hw1 as (Hf1 & Hc1 & Hwr1 & Hd1 & Hn1 & _).
  destruct (cache_the_result_written name df data (computed w1))
    as (Hf & Hc & _ & Hn & _).
  - exact Hdata.
  - simpl. congruence.
  - unfold fits in *. simpl. rewrite Hd1, Hf1. exact Hfits.
  - destruct Hw2 as (Hf2 & Hc2 & _ & _ & Hn2 & _).
    split; [exact Hval|]. simpl in Hf, Hc, Hn.
    repeat split; congruence.
Qed.



Lemma cache_the_result_entry name df w :
  files (snd (cache_the_result name df w)) =
  match to_parquet_bytes df with
  | Raise _ => files w
  | Return data =>
      if writable w then
        let room := (disk_free w + match files w !! name with
                                   | Some f => st_size f
                                   | None => 0
                                   end)%nat in
        if (String.length data <=? room)%nat
        then <[name := File (clock w) data]> (files w)
        else <[name := File (clock w) (substring 0 room data)]> (files w)
      else files w
  end.
Proof.
  unfold cache_the_result, to_parquet, write_file. run.
  destruct (to_parquet_bytes df) as [e|data]; run; [reflexivity|].
  destruct (writable w); fields; [|reflexivity].
  destruct (String.length data <=? _)%nat; fields; [|reflexivity].
  rewrite lookup_insert_eq. reflexivity.
Qed.

(** What C8 asks of the entry once a call has computed a frame and tried to
    store it: the entry parses, or it is the entry there was before. *)
Definition valid_or_untouched (name : string) (w w' : world) : Prop :=
  (exists f df, files w' !! name = Some f /\
                read_parquet_bytes (content f) = Return df) \/
  files w' !! name = files w !! name.

(** A write that fails is logged, with the reason. *)
Lemma cache_the_result_logs name df w e :
  fst (to_parquet df name w) = Raise e ->
  (ERROR, "Failed to cache result: " ++ exn_str e)
  ∈ log (snd (cache_the_result name df w)).
Proof.
  unfold cache_the_result, bind.
  destruct (to_parquet df name w) as [[e'|[]] w']; cbn [fst];
    intros [= ->].
  unfold logger. cbn [snd log]. apply elem_of_app. right. constructor.
Qed.

Lemma to_parquet_outcome df name w :
  fst (to_parquet df name w) =
  match to_parquet_bytes df with
  | Raise e => Raise e
  | Return data =>
      if writable w then
        if (String.length data <=?
            disk_free w + match files w !! name with
                          | Some f => st_size f
                          | None => 0
                          end)%nat
        then Return tt
        else Raise (OSError "[Errno 28] No space left on device")
      else Raise (OSError ("[Errno 13] Permission denied: '" ++ name ++ "'"))
  end.
Proof.
  unfold to_parquet, write_file.
  destruct (to_parquet_bytes df) as [e|data]; [reflexivity|].
  destruct (writable w); [|reflexivity].
  now destruct (String.length data <=? _)%nat.
Qed.

Lemma only_logs_log w w' record :
  only_logs w w' -> record ∈ log w -> record ∈ log w'.
Proof.
  intros (_ & _ & _ & _ & _ & records & ->) Hin.
  apply elem_of_app. now left.
Qed.

(** C8, as the code has it. The frame is written straight to the entry's
    file. When the frame serialises, the directory accepts writes and the
    device has room, the entry holds the whole serialisation. When the frame
    does not serialise or the directory refuses the write, the previous
    entry is untouched. When the device fills up during the write, the entry
    is left holding the bytes written so far; if these bytes do not parse,
    the next non-forced call, whenever it comes, computes again. Each
    failure is logged as an error and goes no further: in every case the
    caller gets the computed frame and no other file changes. *)
Theorem cache_write_is_in_place
    self query compute_fn params (force : bool) w df :
  (if force then @None DataFrame
   else fresh_entry self (entry_name self query params w) w) = None ->
  compute_fn (compute_calls w) = Return (DataFrameObj df) ->
  df_empty df = false ->
  let name := entry_name self query params w in
  let out := get_or_compute self query compute_fn params force w in
  fst out = Return df /\
  (forall other, other <> name -> files (snd out) !! other = files w !! other) /\
  (forall data,
     to_parquet_bytes df = Return data -> writable w = true ->
     fits name data w ->
     files (snd out) !! name = Some (File (clock w) data)) /\
  ((exists e, to_parquet_bytes df = Raise e) \/ writable w = false ->
   files (snd out) !! name = files w !! name) /\
  (forall e,
     to_parquet_bytes df = Raise e ->
     (ERROR, "Failed to cache result: " ++ exn_str e) ∈ log (snd out)) /\
  (writable w = false ->
   exists reason,
     (ERROR, "Failed to cache result: " ++ reason) ∈ log (snd out)) /\
  (forall data,
     to_parquet_bytes df = Return data -> writable w = true ->
     ~ fits name data w ->
     exists n, (n < String.length data)%nat /\
       files (snd out) !! name =
         Some (File (clock w) (substring 0 n data)) /\
       (ERROR, "Failed to cache result: [Errno 28] No space left on device")
       ∈ log (snd out) /\
       (forall e dt,
          read_parquet_bytes (substring 0 n data) = Raise e ->
          compute_calls
            (snd (get_or_compute self query compute_fn params false
                    (advance dt (snd out)))) =
          S (S (compute_calls w)))).
Proof.
  intros Hmiss Hdf Hne name out.
  destruct (get_or_compute_computes_frame self query compute_fn params
              force w df Hmiss Hdf) as (Hval & w1 & Hw1 & Hw2).
  fold out name in Hval, Hw2. rewrite Hne in Hw2.
  destruct Hw1 as (Hf1 & Hc1 & Hwr1 & Hd1 & Hn1 & _).
  pose proof (fun record => only_logs_log _ _ record Hw2) as Hlogged.
  destruct Hw2 as (Hf2 & _).
  pose proof (cache_the_result_entry name df (computed w1)) as Hentry.
  pose proof (cache_the_result_logs name df (computed w1)) as Hfail.
  pose proof (to_parquet_outcome df name (computed w1)) as Hto.
  simpl in Hentry. cbn [computed writable files disk_free clock] in Hto.
  rewrite Hf1, Hc1, Hwr1, Hd1 in Hentry.
  rewrite Hf1, Hwr1, Hd1 in Hto.
  rewrite <- Hf2 in Hentry. clear Hf2.
  assert (compute_calls (snd out) = S (compute_calls w)) as Hcalls
    by (apply get_or_compute_miss_calls; exact Hmiss).
  split; [exact Hval|]. split; [|split; [|split; [|split; [|split]]]].
  - intros other Hother. rewrite Hentry.
    destruct (to_parquet_bytes df) as [e|data]; [reflexivity|].
    destruct (writable w); [|reflexivity].
    destruct (String.length data <=? _)%nat;
      now rewrite lookup_insert_ne.
  - intros data Hdata Hwr Hfits. rewrite Hentry, Hdata, Hwr.
    unfold fits in Hfits. apply Nat.leb_le in Hfits. rewrite Hfits.
    apply lookup_insert_eq.
  - intros [[e He]|Hwr]; rewrite Hentry.
    + now rewrite He.
    + rewrite Hwr. now destruct (to_parquet_bytes df).
  - intros e He. apply Hlogged, Hfail. rewrite Hto, He. reflexivity.
  - intros Hwr. rewrite Hwr in Hto.
    destruct (to_parquet_bytes df) as [e|data];
      eexists; apply Hlogged, Hfail; exact Hto.
  - intros data Hdata Hwr Hfits. rewrite Hentry, Hdata, Hwr.
    rewrite Hdata, Hwr in Hto.
    unfold fits in Hfits. apply Nat.nle_gt in Hfits.
    assert ((String.length data <=?
             disk_free w + match files w !! name with
                           | Some f => st_size f
                           | None => 0
                           end)%nat = false) as Hfull
      by (apply Nat.leb_gt; exact Hfits).
    rewrite Hfull. rewrite Hfull in Hto.
    eexists. split; [exact Hfits|]. split; [apply lookup_insert_eq|].
    split; [apply Hlogged, (Hfail (OSError _)); exact Hto|].
    intros e dt Hread.
    rewrite get_or_compute_miss_calls.
    + cbn [advance compute_calls]. now rewrite Hcalls.
    + change (entry_name self query params (advance dt (snd out)))
        with name.
      unfold fresh_entry. cbn [advance files]. rewrite Hentry, Hdata, Hwr.
      rewrite Hfull, lookup_insert_eq. cbn [content]. rewrite Hread.
      now destruct (Qltb _ _).
Qed.

(** C10. When the compute function returns [None], [get_or_compute] does
    not raise: it returns an empty frame, leaves the cache directory as it
    was and logs a warning; no [TypeError] is raised. *)
Theorem none_result_yields_empty_frame
    self query compute_fn params (force : bool) w :
  (if force then @None DataFrame
   else fresh_entry self (entry_name self query params w) w) = None ->
  compute_fn (compute_calls w) = Return NoneObj ->
  let out := get_or_compute self query compute_fn params force w in
  fst out = Return DataFrame_new /\
  df_empty DataFrame_new = true /\
  files (snd out) = files w /\
  (WARNING, "Compute function returned None") ∈ log (snd out) /\
  (forall msg, fst out <> Raise (TypeError msg)).
Proof.
  intros Hmiss Hnone out.
  destruct (get_or_compute_miss self query compute_fn params force w Hmiss)
    as (w1 & Hw1 & _ & Hres & Hout & _).
  fold out in Hres, Hout.
  pose proof (compute_new_result_cases
                (entry_name self query params w) compute_fn w1) as Hc.
  cbv zeta in Hc.
  replace (compute_calls w1) with (compute_calls w) in Hc
    by (symmetry; apply Hw1).
  rewrite Hnone in Hc. destruct Hc as (Hval & Hw2 & Hlog).
  rewrite Hres, Hval. repeat split.
  - destruct Hout as (-> & _). destruct Hw2 as (-> & _). apply Hw1.
  - eapply only_logs_mono; eassumption.
  - discriminate.
Qed.

(** C6, as the code has it. When the compute function is invoked and
    returns a value that is neither [None] nor a frame, [get_or_compute]
    raises a [TypeError] whose message names the type of the value; the
    error reaches the caller, is logged, and the cache directory is left as
    it was. *)
Theorem non_frame_result_raises_type_error
    self query compute_fn params (force : bool) w other :
  (if force then @None DataFrame
   else fresh_entry self (entry_name self query params w) w) = None ->
  compute_fn (compute_calls w) = Return other ->
  other <> NoneObj ->
  is_DataFrame other = false ->
  let out := get_or_compute self query compute_fn params force w in
  let msg := "Compute function must return a pandas DataFrame, got " ++
             type_str other in
  fst out = Raise (TypeError msg) /\
  files (snd out) = files w /\
  (ERROR, "Compute function failed: " ++ msg) ∈ log (snd out).
Proof.
  intros Hmiss Hother Hnot_none Hnot_frame out msg.
  pose proof (get_or_compute_miss self query compute_fn params force w Hmiss)
    as (w1 & Hw1 & _ & Hres & Hout & Hlogged).
  fold out in Hres, Hout, Hlogged.
  pose proof (compute_new_result_cases
                (entry_name self query params w) compute_fn w1) as Hc.
  cbv zeta in Hc.
  replace (compute_calls w1) with (compute_calls w) in Hc
    by (symmetry; apply Hw1).
  rewrite Hother in Hc.
  assert (fst (compute_new_result (entry_name self query params w)
                                  compute_fn w1) = Raise (TypeError msg) /\
          only_logs (computed w1)
            (snd (compute_new_result (entry_name self query params w)
                                     compute_fn w1))) as [Hval Hw2].
  { destruct other; try exact Hc; [congruence | discriminate]. }
  clear Hc. split; [|split].
  - rewrite Hres. exact Hval.
  - destruct Hout as (-> & _). destruct Hw2 as (-> & _). apply Hw1.
  - apply (Hlogged _ Hval).
Qed.

(** *** Further properties of [get_or_compute] *)

(** The call either hits the cache or runs the compute step. *)
Lemma hit_or_miss self name (force : bool) w :
  (exists df, force = false /\ fresh_entry self name w = Some df) \/
  (if force then @None DataFrame else fresh_entry self name w) = None.
Proof.
  destruct force; [right; reflexivity|].
  destruct (fresh_entry self name w) as [df|]; [left; eauto | right; reflexivity].
Qed.

(** A forced refresh invokes the compute function once, whatever the cache
    holds, returns the frame it computed, and, when the frame is not empty
    and can be written, replaces the entry with it. *)
Theorem force_refresh_always_computes self query compute_fn params w :
  let name := entry_name self query params w in
  let out := get_or_compute self query compute_fn params true w in
  compute_calls (snd out) = S (compute_calls w) /\
  (forall df,
     compute_fn (compute_calls w) = Return (DataFrameObj df) ->
     fst out = Return df) /\
  (forall df data,
     compute_fn (compute_calls w) = Return (DataFrameObj df) ->
     df_empty df = false ->
     to_parquet_bytes df = Return data ->
     writable w = true ->
     fits name data w ->
     files (snd out) !! name = Some (File (clock w) data)).
Proof.
  intros name out. split; [|split].
  - apply get_or_compute_miss_calls. reflexivity.
  - intros df Hdf.
    apply (get_or_compute_computes_frame self query compute_fn params true w
             df eq_refl Hdf).
  - intros df data Hdf Hne Hdata Hwr Hfits.
    destruct (get_or_compute_writes self query compute_fn params true w df
                data eq_refl Hdf Hne Hdata Hwr Hfits) as (_ & Hfiles & _).
    fold out name in Hfiles. rewrite Hfiles. apply lookup_insert_eq.
Qed.

(** An exception raised by the compute function reaches the caller
    unchanged; it is logged and the cache directory is left as it was. *)
Theorem compute_exception_propagates
    self query compute_fn params (force : bool) w e :
  (if force then @None DataFrame
   else fresh_entry self (entry_name self query params w) w) = None ->
  compute_fn (compute_calls w) = Raise e ->
  let out := get_or_compute self query compute_fn params force w in
  fst out = Raise e /\
  files (snd out) = files w /\
  compute_calls (snd out) = S (compute_calls w) /\
  (ERROR, "Compute function failed: " ++ exn_str e) ∈ log (snd out).
Proof.
  intros Hmiss Hraise out.
  destruct (get_or_compute_miss self query compute_fn params force w Hmiss)
    as (w1 & Hw1 & _ & Hres & Hout & Hlogged).
  fold out in Hres, Hout, Hlogged.
  pose proof (compute_new_result_cases
                (entry_name self query params w) compute_fn w1) as Hc.
  cbv zeta in Hc.
  replace (compute_calls w1) with (compute_calls w) in Hc
    by (symmetry; apply Hw1).
  rewrite Hraise in Hc. destruct Hc as [Hval Hw2].
  split; [congruence|]. split; [|split].
  - destruct Hout as (-> & _). destruct Hw2 as (-> & _). apply Hw1.
  - apply get_or_compute_miss_calls. exact Hmiss.
  - apply Hlogged. exact Hval.
Qed.

(** An entry whose age has reached [ttl_hours] is not read, even when it
    parses: the compute function is invoked and its frame, not the stored
    one, is returned. *)
Theorem stale_entry_is_recomputed self query compute_fn params w f :
  let name := entry_name self query params w in
  files w !! name = Some f ->
  (inject_Z (ttl_hours self) <= age_hours w f)%Q ->
  let out := get_or_compute self query compute_fn params false w in
  compute_calls (snd out) = S (compute_calls w) /\
  (forall df,
     compute_fn (compute_calls w) = Return (DataFrameObj df) ->
     fst out = Return df) /\
  (forall df,
     compute_fn (compute_calls w) = Return (DataFrameObj df) ->
     df_empty df = true ->
     files (snd out) = files w).
Proof.
  intros name Hf Hstale out.
  assert (fresh_entry self name w = None) as Hnone.
  { unfold fresh_entry. rewrite Hf.
    apply Qltb_ge in Hstale. now rewrite Hstale. }
  split; [|split].
  - apply get_or_compute_miss_calls. exact Hnone.
  - intros df Hdf.
    apply (get_or_compute_computes_frame self query compute_fn params false w
             df Hnone Hdf).
  - intros df Hdf Hempty.
    destruct (get_or_compute_computes_frame self query compute_fn params
                false w df Hnone Hdf) as (_ & w1 & Hw1 & Hw2).
    fold out in Hw2. rewrite Hempty in Hw2.
    destruct Hw2 as (-> & _). apply Hw1.
Qed.

(** Whatever the cache holds and whatever the compute function does, a call
    touches no file but its own entry, deletes nothing and leaves the clock
    and the write permission alone. *)
Theorem get_or_compute_touches_its_entry_only
    self query compute_fn params (force : bool) w :
  let name := entry_name self query params w in
  let out := get_or_compute self query compute_fn params force w in
  (forall other, other <> name ->
     files (snd out) !! other = files w !! other) /\
  (is_Some (files w !! name) -> is_Some (files (snd out) !! name)) /\
  clock (snd out) = clock w /\
  writable (snd out) = writable w.
Proof.
  intros name out.
  destruct (hit_or_miss self name force w) as [(df & -> & Hhit) | Hmiss].
  { destruct (get_or_compute_hit self query compute_fn params w df Hhit)
      as (_ & Hf & Hc & Hwr & _).
    fold out in Hf, Hc, Hwr. rewrite Hf. auto. }
  destruct (get_or_compute_miss self query compute_fn params force w Hmiss)
    as (w1 & (Hf1 & Hc1 & Hwr1 & _) & _ & _ & (Hf2 & Hc2 & Hwr2 & _) & _).
  fold out name in Hf2, Hc2, Hwr2. rewrite Hf2, Hc2, Hwr2.
  pose proof (compute_new_result_cases name compute_fn w1) as Hc.
  cbv zeta in Hc.
  assert (forall w', only_logs (computed w1) w' ->
            (forall other, other <> name ->
               files w' !! other = files w !! other) /\
            (is_Some (files w !! name) -> is_Some (files w' !! name)) /\
            clock w' = clock w /\ writable w' = writable w) as Hsame.
  { intros w' (Hf & Hc' & Hwr' & _). rewrite Hf, Hc', Hwr'. simpl.
    rewrite Hf1. auto. }
  destruct (compute_fn (compute_calls w1)) as [e|[]];
    try (apply Hsame, Hc).
  destruct Hc as [_ Hc]. destruct (df_empty df); [apply Hsame, Hc|].
  rewrite Hc.
  destruct (cache_the_result_frame name df (computed w1))
    as (Hothers & Hclock & Hwrit & _).
  pose proof (cache_the_result_entry name df (computed w1)) as Hentry.
  simpl in Hothers, Hclock, Hwrit, Hentry.
  rewrite Hclock, Hwrit, Hc1, Hwr1. repeat split.
  - intros other Hother. rewrite Hothers by exact Hother. now rewrite Hf1.
  - intros Hsome. rewrite Hentry.
    destruct (to_parquet_bytes df) as [e|data]; [now rewrite Hf1|].
    destruct (writable w1); [|now rewrite Hf1].
    destruct (String.length data <=? _)%nat;
      rewrite lookup_insert_eq; eauto.
Qed.

(** A TTL of zero or less switches the cache off: as long as the entry is
    not dated in the future, a non-forced call never reads it and always
    invokes the compute function. *)
Theorem nonpositive_ttl_disables_cache self query compute_fn params w :
  (ttl_hours self <= 0)%Z ->
  (forall f, files w !! entry_name self query params w = Some f ->
     (st_mtime f <= clock w)%Q) ->
  let out := get_or_compute self query compute_fn params false w in
  compute_calls (snd out) = S (compute_calls w) /\
  (forall df,
     compute_fn (compute_calls w) = Return (DataFrameObj df) ->
     fst out = Return df).
Proof.
  intros Httl Hpast out.
  assert (fresh_entry self (entry_name self query params w) w = None)
    as Hnone.
  { unfold fresh_entry.
    destruct (files w !! entry_name self query params w) as [f|] eqn:Hf;
      [|reflexivity].
    assert (Qltb (age_hours w f) (inject_Z (ttl_hours self)) = false) as ->;
      [|reflexivity].
    apply Qltb_ge. unfold age_hours.
    apply Qle_trans with (y := 0%Q).
    - unfold Qle. simpl. lia.
    - apply Qle_shift_div_l; [reflexivity|]. rewrite Qmult_0_l.
      specialize (Hpast f eq_refl).
      unfold Qminus. rewrite <- (Qplus_opp_r (st_mtime f)).
      apply Qplus_le_l. exact Hpast. }
  split.
  - apply get_or_compute_miss_calls. exact Hnone.
  - intros df Hdf.
    apply (get_or_compute_computes_frame self query compute_fn params false w
             df Hnone Hdf).
Qed.

End Methods.

(** *** Cache management: [clear_cache], [get_cache_stats], [__repr__] *)

(** What [Path.glob] does is pathlib's business. For a pattern it says
    - whether the pattern is refused, with what exception (a non-relative
      pattern is, with [NotImplementedError]);
    - which files of the cache directory match ([glob_match]);
    - which other paths the pattern reaches: the directory itself, its
      parent, files of other directories. Each comes with its final
      component and with what [unlink] does to it: raise, or release so many
      bytes of the cache's device. *)
Class Glob := {
  glob_match : string -> string -> bool;
  glob_refuses : string -> option exn;
  glob_elsewhere : string -> list (string * result nat) }.

(** A path yielded by [glob]. *)
Inductive glob_path :=
| Entry (name : string)
| Elsewhere (name : string) (unlinked : result nat).

(** [file_path.name] *)
Definition path_name (file_path : glob_path) : string :=
  match file_path with
  | Entry name | Elsewhere name _ => name
  end.

(** The dict [get_cache_stats] returns: four keys are always there, the key
    [expired_files] only in the dict built from a non-empty listing. *)
Record cache_stats := {
  file_count : Z;
  total_size_mb : Q;
  oldest_file_hours : Q;
  newest_file_hours : Q;
  expired_files : option Z }.

Section Management.
Context {codec : Parquet}.
Context {V : Type} `{Repr V}.
Context {matcher : Glob}.

(** The files of the directory a pattern matches, in the order of the
    directory listing. *)
Definition selected (pattern : string) (w : world) : list string :=
  filter (fun name => glob_match pattern name = true)
         (map fst (map_to_list (files w))).

(** [list(self.cache_dir.glob("query_*.parquet"))]: the pattern is a literal
    of one relative component; pathlib accepts it and it reaches nothing but
    entries of the directory. *)
Definition glob_literal : M world (list string) :=
  fun w => (selected "query_*.parquet" w, w).

(** [list(self.cache_dir.glob(pattern))] for a pattern of the caller. *)
Definition glob (pattern : string) : M world (result (list glob_path)) :=
  fun w =>
    match glob_refuses pattern with
    | Some e => (Raise e, w)
    | None =>
        (Return (map Entry (selected pattern w) ++
                 map (fun p => Elsewhere (fst p) (snd p))
                     (glob_elsewhere pattern))%list, w)
    end.

(** [str(self.cache_dir / name)] *)
Definition cache_path (self : QueryCache) (name : string) : string :=
  cache_dir self ++ "/" ++ name.

(** [file_path.unlink()]. A file of the directory: needs the file and a
    directory that accepts writes; the bytes of the file are released. *)
Definition unlink (self : QueryCache) (file_path : glob_path)
    : M world (result unit) :=
  fun w =>
    match file_path with
    | Entry name =>
        match files w !! name with
        | Some f =>
            if writable w then
              (Return tt,
               World (delete name (files w)) (clock w) (writable w)
                     (disk_free w + st_size f) (log w) (compute_calls w))
            else
              (Raise (OSError ("[Errno 13] Permission denied: '" ++
                               cache_path self name ++ "'")),
               w)
        | None =>
            (Raise (OtherException "FileNotFoundError"
                      ("[Errno 2] No such file or directory: '" ++
                       cache_path self name ++ "'")),
             w)
        end
    | Elsewhere _ (Raise e) => (Raise e, w)
    | Elsewhere _ (Return released) =>
        (Return tt,
         World (files w) (clock w) (writable w) (disk_free w + released)
               (log w) (compute_calls w))
    end.

(** The loop of [clear_cache] over [files_to_delete]. *)
Fixpoint delete_each (self : QueryCache) (files_to_delete : list glob_path)
    (deleted_count : Z) : M world Z :=
  match files_to_delete with
  | [] => ret deleted_count
  | file_path :: rest =>
      let* r := unlink self file_path in
      match r with
      | Return _ =>
          logger DEBUG ("Deleted cache file: " ++ path_name file_path) >>
          delete_each self rest (deleted_count + 1)
      | Raise e =>
          logger WARNING ("Failed to delete " ++ path_name file_path ++
                          ": " ++ exn_str e) >>
          delete_each self rest deleted_count
      end
  end.

(** The call of [glob] stands before the loop and outside its [try]: what
    it raises leaves [clear_cache]. *)
Definition clear_cache (self : QueryCache) (pattern : option string)
    : M world (result Z) :=
  let* listing :=
    match pattern with
    | Some (String _ _ as pattern) => glob pattern
    | _ =>
        let* names := glob_literal in
        ret (Return (map Entry names))
    end in
  match listing with
  | Raise e => ret (Raise e)
  | Return files_to_delete =>
      let* deleted_count := delete_each self files_to_delete 0 in
      logger INFO ("Cleared " ++ pretty deleted_count ++ " cache files") >>
      ret (Return deleted_count)
  end.

(** The loop of [get_cache_stats] over [cache_files]. *)
Fixpoint stat_each (self : QueryCache) (cache_files : list string)
    (current_time : Q) (total_size : Z) (ages : list Q)
    : M world (Z * list Q) :=
  match cache_files with
  | [] => ret (total_size, ages)
  | file_path :: rest =>
      let* st := path_stat file_path in
      match st with
      | Some st =>
          let age_hours := ((current_time - st_mtime st) / 3600)%Q in
          stat_each self rest current_time
                    (total_size + Z.of_nat (st_size st))
                    (ages ++ [age_hours])
      | None =>
          logger WARNING
            ("Failed to stat " ++ file_path ++
             ": [Errno 2] No such file or directory: '" ++
             cache_path self file_path ++ "'") >>
          stat_each self rest current_time total_size ages
      end
  end.

(** [max(ages)] and [min(ages)] on a non-empty list. *)
Definition py_max (first : Q) (others : list Q) : Q :=
  fold_left (fun best x => if Qltb best x then x else best) others first.

Definition py_min (first : Q) (others : list Q) : Q :=
  fold_left (fun best x => if Qltb x best then x else best) others first.

Definition get_cache_stats (self : QueryCache) : M world cache_stats :=
  let* cache_files := glob_literal in
  match cache_files with
  | [] =>
      ret {| file_count := 0;
             total_size_mb := 0;
             oldest_file_hours := 0;
             newest_file_hours := 0;
             expired_files := None |}
  | _ :: _ =>
      let* current_time := time_time in
      let* r := stat_each self cache_files current_time 0 [] in
      let (total_size, ages) := r : Z * list Q in
      ret {| file_count := Z.of_nat (length cache_files);
             total_size_mb := inject_Z total_size / 1024 / 1024;
             oldest_file_hours :=
               match ages with a :: r => py_max a r | [] => 0 end;
             newest_file_hours :=
               match ages with a :: r => py_min a r | [] => 0 end;
             expired_files :=
               Some (Z.of_nat
                       (length
                          (filter
                             (fun age =>
                                Qltb (inject_Z (ttl_hours self)) age = true)
                             ages))) |}
  end.

(** [stats["expired_files"]] *)
Definition getitem_expired_files (stats : cache_stats) : result Z :=
  match expired_files stats with
  | Some n => Return n
  | None => Raise (OtherException "KeyError" "'expired_files'")
  end.

Definition __repr__ (self : QueryCache) : M world string :=
  let* stats := get_cache_stats self in
  ret ("QueryCache(" ++
       "dir='" ++ cache_dir self ++ "', " ++
       "ttl=" ++ pretty (ttl_hours self) ++ "h, " ++
       "files=" ++ pretty (file_count stats) ++ ", " ++
       "size=" ++ format_fixed 1 (total_size_mb stats) ++ "MB" ++
       ")").

(** *** Properties of the cache management *)

(** The pattern [clear_cache] hands to [glob]: an empty pattern is read as
    no pattern. *)
Definition effective_pattern (pattern : option string) : string :=
  match pattern with
  | Some (String _ _ as pattern) => pattern
  | _ => "query_*.parquet"
  end.

(** The pattern is accepted by pathlib and reaches nothing but files of the
    directory. The default pattern is of that kind. *)
Definition stays_inside (pattern : option string) : Prop :=
  match pattern with
  | Some (String _ _ as pattern) =>
      glob_refuses pattern = None /\ glob_elsewhere pattern = []
  | _ => True
  end.

Lemma glob_run w : glob_literal w = (selected "query_*.parquet" w, w).
Proof. reflexivity. Qed.

Lemma selected_spec pattern w name :
  name ∈ selected pattern w <->
  glob_match pattern name = true /\ is_Some (files w !! name).
Proof.
  unfold selected. rewrite list_elem_of_filter.
  split; intros [Hm Hin]; (split; [exact Hm|]).
  - apply list_elem_of_fmap in Hin as ([n f] & -> & Hin).
    apply elem_of_map_to_list in Hin. simpl. eauto.
  - destruct Hin as [f Hf]. apply list_elem_of_fmap. exists (name, f).
    split; [reflexivity|]. now apply elem_of_map_to_list.
Qed.

Lemma selected_NoDup pattern w : NoDup (selected pattern w).
Proof.
  unfold selected. apply NoDup_filter.
  apply NoDup_fst_map_to_list.
Qed.

Lemma clear_cache_unfold self pattern w :
  stays_inside pattern ->
  clear_cache self pattern w =
  let out := delete_each self
               (map Entry (selected (effective_pattern pattern) w)) 0 w in
  (Return (fst out),
   snd (logger INFO ("Cleared " ++ pretty (fst out) ++ " cache files")
               (snd out))).
Proof.
  intros Hinside.
  unfold clear_cache, bind, effective_pattern, glob, glob_literal, ret.
  destruct pattern as [[|c p]|]; cbn [stays_inside] in Hinside.
  - destruct (delete_each _ _ 0 w); reflexivity.
  - destruct Hinside as [-> ->]. cbn [map]. rewrite app_nil_r.
    destruct (delete_each _ _ 0 w); reflexivity.
  - destruct (delete_each _ _ 0 w); reflexivity.
Qed.

Lemma clear_cache_fields self pattern w :
  stays_inside pattern ->
  let out := clear_cache self pattern w in
  let loop := delete_each self
                (map Entry (selected (effective_pattern pattern) w)) 0 w in
  fst out = Return (fst loop) /\
  files (snd out) = files (snd loop) /\
  writable (snd out) = writable (snd loop) /\
  compute_calls (snd out) = compute_calls (snd loop) /\
  (forall record, record ∈ log (snd loop) -> record ∈ log (snd out)).
Proof.
  intros Hinside. cbv zeta. rewrite clear_cache_unfold by exact Hinside.
  cbv zeta. cbn [fst snd logger].
  cbn [files writable compute_calls log]. repeat split.
  intros record Hin. apply elem_of_app. now left.
Qed.

Lemma delete_each_writable self names :
  forall count w,
    writable w = true ->
    NoDup names ->
    (forall name, name ∈ names -> is_Some (files w !! name)) ->
    let out := delete_each self (map Entry names) count w in
    fst out = (count + Z.of_nat (length names))%Z /\
    (forall name,
       files (snd out) !! name =
       if decide (name ∈ names) then None else files w !! name) /\
    clock (snd out) = clock w /\
    writable (snd out) = true /\
    compute_calls (snd out) = compute_calls w.
Proof.
  induction names as [|x names IH]; intros count w Hwr Hnd Hin; cbv zeta.
  - simpl. repeat split; auto. lia.
  - apply NoDup_cons in Hnd as [Hx Hnd].
    destruct (Hin x) as [f Hf]; [left|].
    cbn [map delete_each]. unfold bind, unlink. rewrite Hf, Hwr.
    cbn [logger]. set (w1 := World _ _ _ _ _ _).
    destruct (IH (count + 1)%Z w1) as (Hcount & Hfiles & Hclock & Hwr' & Hcalls).
    + reflexivity.
    + exact Hnd.
    + intros name Hname. subst w1. cbn [files].
      assert (x <> name) as Hne by (intros ->; exact (Hx Hname)).
      rewrite (lookup_delete_ne _ _ _ Hne).
      apply Hin. now right.
    + rewrite Hcount, Hclock, Hwr', Hcalls. subst w1. cbn.
      repeat split; try reflexivity; [lia|].
      intros name. rewrite Hfiles. cbn [files].
      destruct (decide (name = x)) as [->|Hne].
      * rewrite decide_False by exact Hx.
        rewrite decide_True by left. apply lookup_delete_eq.
      * rewrite lookup_delete_ne by congruence.
        destruct (decide (name ∈ names)) as [Hn|Hn].
        -- rewrite decide_True by (now right). reflexivity.
        -- rewrite decide_False; [reflexivity|].
           intros Hc. apply elem_of_cons in Hc as [?|?]; contradiction.
Qed.

Lemma delete_each_read_only self names :
  forall count w,
    writable w = false ->
    let out := delete_each self (map Entry names) count w in
    fst out = count /\
    files (snd out) = files w /\
    (forall record, record ∈ log w -> record ∈ log (snd out)) /\
    (forall name,
       name ∈ names -> is_Some (files w !! name) ->
       (WARNING, "Failed to delete " ++ name ++
                 ": [Errno 13] Permission denied: '" ++
                 cache_path self name ++ "'")
       ∈ log (snd out)).
Proof.
  induction names as [|x names IH]; intros count w Hwr; cbv zeta.
  - simpl. repeat split; auto. intros name Hname. inversion Hname.
  - cbn [map delete_each path_name]. unfold bind, unlink. rewrite Hwr.
    set (after := fun e : exn =>
           snd (logger WARNING
                  ("Failed to delete " ++ x ++ ": " ++ exn_str e) w)).
    assert (forall e,
              let out := delete_each self (map Entry names) count (after e) in
              fst out = count /\ files (snd out) = files w /\
              (forall record, record ∈ log (after e) ->
                              record ∈ log (snd out)) /\
              (forall name, name ∈ names -> is_Some (files w !! name) ->
                 (WARNING, "Failed to delete " ++ name ++
                   ": [Errno 13] Permission denied: '" ++
                   cache_path self name ++ "'")
                 ∈ log (snd out))) as Hrest.
    { intros e. apply (IH count (after e)). exact Hwr. }
    destruct (files w !! x) as [f|] eqn:Hx.
    + destruct (Hrest (OSError ("[Errno 13] Permission denied: '" ++
                                cache_path self x ++ "'")))
        as (Hc & Hf & Hmono & Hwarn).
      cbn [logger]. fold (after (OSError
        ("[Errno 13] Permission denied: '" ++ cache_path self x ++ "'")))
        in *.
      split; [exact Hc|]. split; [exact Hf|]. split.
      * intros record Hin. apply Hmono. subst after. cbn.
        apply elem_of_app. now left.
      * intros name Hname Hsome.
        apply elem_of_cons in Hname as [->|Hname]; [|now apply Hwarn].
        apply Hmono. subst after. cbn. apply elem_of_app. right. constructor.
    + destruct (Hrest (OtherException "FileNotFoundError"
                  ("[Errno 2] No such file or directory: '" ++
                   cache_path self x ++ "'")))
        as (Hc & Hf & Hmono & Hwarn).
      split; [exact Hc|]. split; [exact Hf|]. split.
      * intros record Hin. apply Hmono. subst after. cbn.
        apply elem_of_app. now left.
      * intros name Hname Hsome.
        apply elem_of_cons in Hname as [->|Hname]; [|now apply Hwarn].
        rewrite Hx in Hsome. destruct Hsome as [? [=]].
Qed.

(** [clear_cache] in a directory that accepts writes. *)
Lemma clear_cache_writable self pattern w :
  writable w = true ->
  stays_inside pattern ->
  let out := clear_cache self pattern w in
  let pat := effective_pattern pattern in
  fst out = Return (Z.of_nat (length (selected pat w))) /\
  (forall name,
     files (snd out) !! name =
     if decide (name ∈ selected pat w) then None else files w !! name) /\
  writable (snd out) = true /\
  compute_calls (snd out) = compute_calls w.
Proof.
  intros Hwr Hinside out pat. unfold out.
  destruct (clear_cache_fields self pattern w Hinside)
    as (-> & -> & -> & -> & _).
  fold pat.
  destruct (delete_each_writable self (selected pat w) 0 w Hwr
              (selected_NoDup pat w)) as (Hc & Hf & _ & Hw' & Hn).
  - intros name Hname. now apply selected_spec in Hname.
  - rewrite Hc. split; [f_equal; lia|]. auto.
Qed.

Lemma clear_cache_leaves_no_match self pattern w name :
  writable w = true ->
  stays_inside pattern ->
  glob_match (effective_pattern pattern) name = true ->
  files (snd (clear_cache self pattern w)) !! name = None.
Proof.
  intros Hwr Hinside Hm.
  destruct (clear_cache_writable self pattern w Hwr Hinside)
    as (_ & Hfiles & _).
  rewrite Hfiles.
  destruct (decide (name ∈ selected (effective_pattern pattern) w))
    as [Hin|Hin]; [reflexivity|].
  destruct (files w !! name) as [f|] eqn:Hf; [|reflexivity].
  exfalso. apply Hin. apply selected_spec. eauto.
Qed.

(** In a directory that accepts writes, and for a pattern that pathlib
    accepts and that reaches nothing outside the directory, [clear_cache]
    removes every file its pattern selects and no other, returns how many
    there were, and a second call with the same pattern finds nothing left
    to delete. *)
Theorem clear_cache_removes_selected self pattern w :
  writable w = true ->
  stays_inside pattern ->
  let out := clear_cache self pattern w in
  let pat := effective_pattern pattern in
  fst out = Return (Z.of_nat (length (selected pat w))) /\
  (forall name, glob_match pat name = true ->
     files (snd out) !! name = None) /\
  (forall name, glob_match pat name = false ->
     files (snd out) !! name = files w !! name) /\
  fst (clear_cache self pattern (snd out)) = Return 0%Z.
Proof.
  intros Hwr Hinside out pat.
  destruct (clear_cache_writable self pattern w Hwr Hinside)
    as (Hcount & Hfiles & Hwr' & _).
  fold out pat in Hcount, Hfiles, Hwr'.
  split; [exact Hcount|]. split.
  { intros name Hm. now apply clear_cache_leaves_no_match. }
  split.
  - intros name Hm. rewrite Hfiles. rewrite decide_False; [reflexivity|].
    intros Hin. apply selected_spec in Hin as [Hm' _]. congruence.
  - destruct (clear_cache_fields self pattern (snd out) Hinside) as (-> & _).
    fold pat.
    assert (selected pat (snd out) = []) as ->.
    { apply elem_of_nil_inv. intros name Hin.
      apply selected_spec in Hin as [Hm [f Hf]].
      unfold out in Hf.
      rewrite (clear_cache_leaves_no_match self pattern w name Hwr Hinside Hm)
        in Hf.
      discriminate. }
    reflexivity.
Qed.

(** In a directory that refuses writes, and for a pattern that pathlib
    accepts and that reaches nothing outside the directory, [clear_cache]
    deletes nothing and returns 0; each selected file is reported in a
    warning and skipped. *)
Theorem clear_cache_read_only self pattern w :
  writable w = false ->
  stays_inside pattern ->
  let out := clear_cache self pattern w in
  fst out = Return 0%Z /\
  files (snd out) = files w /\
  (forall name,
     name ∈ selected (effective_pattern pattern) w ->
     (WARNING, "Failed to delete " ++ name ++
               ": [Errno 13] Permission denied: '" ++
               cache_path self name ++ "'")
     ∈ log (snd out)).
Proof.
  intros Hwr Hinside out.
  destruct (clear_cache_fields self pattern w Hinside)
    as (Hc' & Hf' & _ & _ & Hlog).
  fold out in Hc', Hf', Hlog. rewrite Hc', Hf'.
  destruct (delete_each_read_only self (selected (effective_pattern pattern) w)
              0 w Hwr) as (Hc & Hf & _ & Hwarn).
  split; [now rewrite Hc|]. split; [exact Hf|].
  intros name Hname. apply Hlog, Hwarn; [exact Hname|].
  now apply selected_spec in Hname.
Qed.

(** A pattern that pathlib refuses, as it does a non-relative one, makes
    [clear_cache] raise pathlib's exception in every world: the call comes
    before the loop and outside its [try], so nothing is deleted, nothing is
    logged and no count is returned. An empty pattern is never handed to
    pathlib: it is read as no pattern. *)
Theorem clear_cache_refused_pattern self pattern e w :
  glob_refuses pattern = Some e ->
  (pattern <> "" -> clear_cache self (Some pattern) w = (Raise e, w)) /\
  (pattern = "" ->
   clear_cache self (Some pattern) w = clear_cache self None w /\
   forall e', fst (clear_cache self (Some pattern) w) <> Raise e').
Proof.
  intros Hrefused. split.
  - intros Hne. destruct pattern as [|c p]; [contradiction|].
    unfold clear_cache, bind, glob. rewrite Hrefused. reflexivity.
  - intros ->. split; [reflexivity|]. intros e'.
    rewrite (clear_cache_unfold self (Some "") w I). discriminate.
Qed.

(** After [clear_cache()] in a directory that accepts writes, a query whose
    entry name the default pattern selects is computed again by the next
    non-forced call. *)
Theorem clear_cache_forces_recompute self query compute_fn params w :
  writable w = true ->
  glob_match "query_*.parquet" (entry_name self query params w) = true ->
  let cleared := snd (clear_cache self None w) in
  let out := get_or_compute self query compute_fn params false cleared in
  compute_calls (snd out) = S (compute_calls w).
Proof.
  intros Hwr Hmatch cleared out.
  destruct (clear_cache_writable self None w Hwr I) as (_ & _ & _ & Hcalls).
  fold cleared in Hcalls.
  subst out. rewrite get_or_compute_miss_calls; [now rewrite Hcalls|].
  unfold fresh_entry.
  change (entry_name self query params cleared)
    with (entry_name self query params w).
  unfold cleared.
  now rewrite (clear_cache_leaves_no_match self None w _ Hwr I Hmatch).
Qed.

(** Size in bytes and age in hours of a file of the directory. *)
Definition size_of (w : world) (name : string) : Z :=
  match files w !! name with
  | Some f => Z.of_nat (st_size f)
  | None => 0
  end.

Definition age_of (w : world) (name : string) : Q :=
  match files w !! name with
  | Some f => age_hours w f
  | None => 0
  end.

Definition total_bytes (w : world) (names : list string) : Z :=
  foldr (fun name total => (size_of w name + total)%Z) 0%Z names.

Lemma stat_each_spec self names :
  forall total ages w,
    (forall name, name ∈ names -> is_Some (files w !! name)) ->
    stat_each self names (clock w) total ages w =
    ((total + total_bytes w names)%Z,
     (ages ++ map (age_of w) names)%list, w).
Proof.
  induction names as [|x names IH]; intros total ages w Hin.
  - simpl. unfold ret. now rewrite Z.add_0_r, app_nil_r.
  - destruct (Hin x) as [f Hf]; [left|].
    cbn [stat_each]. unfold bind, path_stat. rewrite Hf.
    rewrite IH by (intros name Hname; apply Hin; now right).
    unfold total_bytes, size_of, age_of, age_hours. cbn [foldr map].
    rewrite Hf, <- app_assoc. simpl. f_equal. f_equal. lia.
Qed.

Lemma py_max_ge others : forall first, (first <= py_max first others)%Q.
Proof.
  unfold py_max. induction others as [|x others IH]; intros first; simpl.
  - apply Qle_refl.
  - destruct (Qltb first x) eqn:Hlt.
    + apply Qltb_lt in Hlt. eapply Qle_trans; [|apply IH].
      now apply Qlt_le_weak.
    + apply IH.
Qed.

Lemma py_min_le others : forall first, (py_min first others <= first)%Q.
Proof.
  unfold py_min. induction others as [|x others IH]; intros first; simpl.
  - apply Qle_refl.
  - destruct (Qltb x first) eqn:Hlt.
    + apply Qltb_lt in Hlt. eapply Qle_trans; [apply IH|].
      now apply Qlt_le_weak.
    + apply IH.
Qed.

Lemma total_bytes_nonneg w names : (0 <= total_bytes w names)%Z.
Proof.
  induction names as [|x names IH]; simpl; [lia|].
  unfold size_of. destruct (files w !! x); lia.
Qed.

(** The statistics over a non-empty listing. *)
Lemma get_cache_stats_nonempty self w :
  selected "query_*.parquet" w <> [] ->
  let names := selected "query_*.parquet" w in
  let ages := map (age_of w) names in
  get_cache_stats self w =
  ({| file_count := Z.of_nat (length names);
      total_size_mb := inject_Z (total_bytes w names) / 1024 / 1024;
      oldest_file_hours :=
        match ages with a :: r => py_max a r | [] => 0 end;
      newest_file_hours :=
        match ages with a :: r => py_min a r | [] => 0 end;
      expired_files :=
        Some (Z.of_nat
                (length
                   (filter
                      (fun age => Qltb (inject_Z (ttl_hours self)) age = true)
                      ages))) |}, w).
Proof.
  intros Hne names ages. unfold get_cache_stats, bind. rewrite glob_run.
  fold names. destruct names as [|x rest] eqn:Hnames; [contradiction|].
  unfold time_time. rewrite <- Hnames.
  rewrite stat_each_spec
    by (intros name Hname; now apply selected_spec in Hname).
  rewrite Hnames. reflexivity.
Qed.

Lemma get_cache_stats_empty self w :
  selected "query_*.parquet" w = [] ->
  get_cache_stats self w =
  ({| file_count := 0; total_size_mb := 0; oldest_file_hours := 0;
      newest_file_hours := 0; expired_files := None |}, w).
Proof.
  intros Hempty. unfold get_cache_stats, bind. rewrite glob_run, Hempty.
  reflexivity.
Qed.

(** [get_cache_stats] only reads. The key [expired_files] is missing from
    its dict exactly when no file matches the naming convention, which is
    exactly when [file_count] is 0; reading it then raises [KeyError]. *)
Theorem stats_of_empty_cache_lack_expired_files self w :
  let stats := fst (get_cache_stats self w) in
  snd (get_cache_stats self w) = w /\
  (expired_files stats = None <-> selected "query_*.parquet" w = []) /\
  (expired_files stats = None <-> file_count stats = 0%Z) /\
  (expired_files stats = None ->
   getitem_expired_files stats =
     Raise (OtherException "KeyError" "'expired_files'")).
Proof.
  intros stats. subst stats.
  destruct (selected "query_*.parquet" w) as [|x rest] eqn:Hsel.
  - rewrite (get_cache_stats_empty self w Hsel). cbn.
    repeat split; auto.
  - rewrite get_cache_stats_nonempty by (rewrite Hsel; discriminate).
    rewrite Hsel. cbn [fst snd expired_files file_count].
    split; [reflexivity|]. split; [split; discriminate|].
    split; [|discriminate]. split; [discriminate|].
    cbn [length]. lia.
Qed.

(** Over a non-empty listing: the file count is the number of files the
    naming convention selects, the expired count lies between 0 and it, the
    newest age is at most the oldest, and the size is that of those files. *)
Theorem stats_counts_are_consistent self w :
  selected "query_*.parquet" w <> [] ->
  let stats := fst (get_cache_stats self w) in
  let names := selected "query_*.parquet" w in
  file_count stats = Z.of_nat (length names) /\
  (1 <= file_count stats)%Z /\
  (exists expired,
     expired_files stats = Some expired /\
     (0 <= expired <= file_count stats)%Z) /\
  (newest_file_hours stats <= oldest_file_hours stats)%Q /\
  total_size_mb stats == inject_Z (total_bytes w names) / 1024 / 1024 /\
  (0 <= total_size_mb stats)%Q.
Proof.
  intros Hne stats names. subst stats.
  rewrite (get_cache_stats_nonempty self w Hne). cbn [fst]. fold names.
  cbn [file_count expired_files newest_file_hours oldest_file_hours
       total_size_mb].
  fold names in Hne. clearbody names.
  split; [reflexivity|]. split.
  { destruct names; [contradiction | simpl; lia]. }
  split.
  { eexists. split; [reflexivity|]. split; [lia|].
    apply inj_le. etransitivity; [apply length_filter|].
    now rewrite length_map. }
  split.
  { destruct (map (age_of w) names) as [|a r]; [apply Qle_refl|].
    eapply Qle_trans; [apply py_min_le | apply py_max_ge]. }
  split; [reflexivity|].
  pose proof (total_bytes_nonneg w names) as Hpos.
  assert (0 <= inject_Z (total_bytes w names))%Q as Hq
    by (unfold Qle; simpl; lia).
  apply Qle_shift_div_l; [reflexivity|]. rewrite Qmult_0_l.
  apply Qle_shift_div_l; [reflexivity|]. now rewrite Qmult_0_l.
Qed.

#[local] Instance Qeq_decision (x y : Q) : Decision (x == y) := Qeq_dec x y.

Lemma length_filter_ages (P : Q -> Prop) `{forall age, Decision (P age)}
    w names :
  length (filter P (map (age_of w) names)) =
  length (filter (fun name => P (age_of w name)) names).
Proof.
  induction names as [|x names IH]; [reflexivity|].
  cbn [map]. rewrite !filter_cons.
  destruct (decide (P (age_of w x))); simpl; now rewrite IH.
Qed.

(** The expired count takes the files strictly older than [ttl_hours],
    while the freshness check accepts those strictly younger: a file whose
    age is exactly [ttl_hours] is in neither, and the three groups make up
    the file count. *)
Theorem stats_partition_by_age self w :
  let stats := fst (get_cache_stats self w) in
  let names := selected "query_*.parquet" w in
  let ttl := inject_Z (ttl_hours self) in
  let fresh :=
    filter (fun name => fst (_is_cache_valid self name w) = true) names in
  let at_ttl := filter (fun name => age_of w name == ttl) names in
  file_count stats =
  (Z.of_nat (length fresh) + default 0 (expired_files stats)
   + Z.of_nat (length at_ttl))%Z.
Proof.
  intros stats names ttl fresh at_ttl. subst stats fresh at_ttl.
  assert (names = [] \/ names <> []) as [Hnil|Hne]
    by (destruct names; [now left | now right]).
  { unfold names in *. rewrite (get_cache_stats_empty self w Hnil).
    rewrite Hnil. reflexivity. }
  unfold names in Hne. rewrite (get_cache_stats_nonempty self w Hne).
  fold names. cbn [fst file_count expired_files].
  cbn [default from_option id]. fold ttl.
  rewrite (length_filter_ages (fun age => Qltb ttl age = true)).
  assert (forall name, name ∈ names -> is_Some (files w !! name)) as Hin
    by (intros name Hname; now apply selected_spec in Hname).
  clearbody names. clear Hne.
  induction names as [|x names IH]; [reflexivity|].
  assert (forall name, name ∈ names -> is_Some (files w !! name)) as Hin'
    by (intros name Hname; apply Hin; now right).
  specialize (IH Hin').
  destruct (Hin x) as [f Hf]; [left|].
  rewrite !filter_cons.
  assert (fst (_is_cache_valid self x w) = Qltb (age_of w x) ttl) as Hvalid
    by (rewrite is_cache_valid_value; unfold age_of; now rewrite Hf).
  destruct (Qlt_le_dec (age_of w x) ttl) as [Hlt|Hge].
  - (* strictly younger: fresh *)
    assert (Qltb (age_of w x) ttl = true) as Hfresh by now apply Qltb_lt.
    assert (Qltb ttl (age_of w x) = false) as Hexp
      by (apply Qltb_ge; now apply Qlt_le_weak).
    rewrite decide_True by congruence.
    rewrite decide_False by congruence.
    rewrite decide_False
      by (intros Heq; rewrite Heq in Hlt; exact (Qlt_irrefl _ Hlt)).
    cbn [length]. lia.
  - assert (Qltb (age_of w x) ttl = false) as Hfresh by now apply Qltb_ge.
    rewrite decide_False by congruence.
    destruct (Qeq_dec (age_of w x) ttl) as [Heq|Hne].
    + (* exactly ttl_hours old *)
      assert (Qltb ttl (age_of w x) = false) as Hexp
        by (apply Qltb_ge; rewrite Heq; apply Qle_refl).
      rewrite decide_False by congruence.
      rewrite decide_True by exact Heq.
      cbn [length]. lia.
    + (* strictly older: expired *)
      assert (Qltb ttl (age_of w x) = true) as Hexp.
      { apply Qltb_lt. apply Qle_lt_or_eq in Hge as [Hlt|Heq];
          [exact Hlt | symmetry in Heq; contradiction]. }
      rewrite decide_True by exact Hexp.
      rewrite decide_False by exact Hne.
      cbn [length]. lia.
Qed.

(** After [clear_cache()] in a directory that accepts writes, the
    statistics are those of an empty cache. *)
Theorem stats_after_clear_cache self w :
  writable w = true ->
  let cleared := snd (clear_cache self None w) in
  fst (get_cache_stats self cleared) =
  {| file_count := 0; total_size_mb := 0; oldest_file_hours := 0;
     newest_file_hours := 0; expired_files := None |}.
Proof.
  intros Hwr cleared.
  rewrite get_cache_stats_empty; [reflexivity|].
  apply elem_of_nil_inv. intros name Hin.
  apply selected_spec in Hin as [Hm [f Hf]]. unfold cleared in Hf.
  rewrite (clear_cache_leaves_no_match self None w name Hwr I Hm) in Hf.
  discriminate.
Qed.

End Management.

(** *** A concrete codec and world, to run the model

    The stand-in codec frames an S-expression rendering of the columns and
    rows of the frame between the two [PAR1] magic markers of a Parquet
    file. As with [index=False], the index is not written: what is read
    back has the default index. *)

#[local] Instance Serialize_value : Serialize value := fun v =>
  match v with
  | VNone => Atom "null"
  | VBool b => [Atom "bool"; to_sexp b]
  | VInt z => [Atom "int"; to_sexp z]
  | VStr s => [Atom "str"; to_sexp s]
  end%sexp.

#[local] Instance Deserialize_value : Deserialize value :=
  Deser.match_con "value" [("null", VNone)]
    [("bool", Deser.con1_ VBool); ("int", Deser.con1_ VInt);
     ("str", Deser.con1_ VStr)].

#[local] Instance Serialize_DataFrame : Serialize DataFrame := fun df =>
  [Atom "table"; to_sexp (columns df); to_sexp (rows df)]%sexp.

#[local] Instance Deserialize_DataFrame : Deserialize DataFrame :=
  Deser.match_con "table" []
    [("table",
      Deser.con2_ (fun c r => {| columns := c; rows := r; index := None |}))].

Definition framed_to_bytes (df : DataFrame) : result string :=
  Return ("PAR1" ++ to_string df ++ "PAR1").

Definition framed_of_bytes (bytes : string) : result DataFrame :=
  let n := String.length bytes in
  if (8 <=? n)%nat && String.eqb (substring 0 4 bytes) "PAR1"
     && String.eqb (substring (n - 4) 4 bytes) "PAR1" then
    match from_string (substring 4 (n - 8) bytes) with
    | inr df => Return df
    | inl _ => Raise (OtherException "ArrowInvalid" "Parquet file is corrupted")
    end
  else
    Raise (OtherException "ArrowInvalid"
             "Parquet magic bytes not found in footer").

Definition framed : Parquet :=
  {| to_parquet_bytes := framed_to_bytes;
     read_parquet_bytes := framed_of_bytes |}.

Definition sample_dataframe : DataFrame :=
  {| columns := ["id"; "name"];
     rows := [[VInt 1; VStr "Alice"]; [VInt 2; VStr "Bob"];
              [VInt 3; VStr "Charlie"]];
     index := None |}.

Definition test_cache : QueryCache :=
  {| cache_dir := "data/cache"; ttl_hours := 1 |}.

(** An empty, writable cache directory with room for 4096 bytes. *)
Definition fresh_world : world := World ∅ 1000 true 4096 [] 0.

Definition test_query : string := "SELECT * FROM test_table".

Definition no_params : option (list (string * value)) := None.

Example key_without_params :
  fst (_generate_cache_key test_cache test_query no_params fresh_world)
  = "fe13b4c0f846a672".
Proof. vm_compute. reflexivity. Qed.

Example key_with_params :
  fst (_generate_cache_key test_cache test_query
         (Some [("offset", VInt 0); ("limit", VInt 100)]) fresh_world)
  = "cf57f7ede1696d7f".
Proof. vm_compute. reflexivity. Qed.

Example key_with_mixed_params :
  fst (_generate_cache_key test_cache (String (ascii_of_nat 9) " q  ")
         (Some [("b", VStr "it's"); ("a", VNone); ("c", VBool true);
                ("d", VInt (-12));
                ("e", VStr ("say " ++ String dquote "hi" ++ String dquote ""));
                ("f", VStr ("both ' and " ++ String dquote ""));
                ("g", VStr ("tab" ++ String (ascii_of_nat 9) "here\ " ++
                            String (ascii_of_nat 1)
                              (String (ascii_of_nat 127) "")))])
         fresh_world)
  = "132627554b0e6495".
Proof. vm_compute. reflexivity. Qed.

Example miss_then_hit :
  let fn := fun _ => Return (DataFrameObj sample_dataframe) in
  let run1 := get_or_compute (codec := framed) test_cache test_query fn
                             no_params false fresh_world in
  let run2 := get_or_compute (codec := framed) test_cache test_query fn
                             no_params false (advance 60 (snd run1)) in
  fst run1 = Return sample_dataframe /\
  fst run2 = Return sample_dataframe /\
  compute_calls (snd run2) = 1%nat /\
  map fst (map_to_list (files (snd run2))) =
    ["query_fe13b4c0f846a672.parquet"] /\
  log (snd run2) =
    [(DEBUG, "Generated cache key: fe13b4c0f846a672");
     (INFO, "Cache miss for: query_fe13b4c0f846a672.parquet");
     (INFO, "Computing new result...");
     (INFO, "Result cached: query_fe13b4c0f846a672.parquet (3 rows, 0.0 MB)");
     (DEBUG, "Generated cache key: fe13b4c0f846a672");
     (DEBUG, "Cache hit: query_fe13b4c0f846a672.parquet (age: 0.0h, TTL: 1h)");
     (INFO, "Loading cached result: query_fe13b4c0f846a672.parquet");
     (INFO, "Cache hit: 3 rows loaded")].
Proof. vm_compute. repeat split. Qed.

Definition returns_sample : nat -> result object :=
  fun _ => Return (DataFrameObj sample_dataframe).

Definition sample_bytes : string :=
  "PAR1" ++ to_string sample_dataframe ++ "PAR1".

Definition sample_entry : string := "query_fe13b4c0f846a672.parquet".





Definition swapped_params : list (string * value) :=
  [("limit", VInt 100); ("offset", VInt 0)].

Lemma generate_cache_key_deterministic_witness :
  fst (_generate_cache_key test_cache " SELECT * FROM test_table "
         (Some [("offset", VInt 0); ("limit", VInt 100)]) fresh_world) =
  fst (_generate_cache_key test_cache test_query (Some swapped_params)
         (advance 60 fresh_world)).
Proof.
  apply (generate_cache_key_deterministic test_cache test_cache
           " SELECT * FROM test_table " test_query
           [("offset", VInt 0); ("limit", VInt 100)] swapped_params
           fresh_world (advance 60 fresh_world)).
  - reflexivity.
  - apply (bool_decide_unpack _). reflexivity.
  - apply Permutation_swap.
Defined.

(** A cache directory holding one entry for [test_query], written at time 0
    with [content] as its bytes; the clock reads [now]. *)
Definition world_with_entry (content : string) (now : Q) (free : nat)
    : world :=
  World {[ sample_entry := File 0 content ]} now true free [] 0.


Definition empty_frame : DataFrame :=
  {| columns := ["id"]; rows := []; index := None |}.

Lemma empty_result_is_not_cached_witness :
  let fn := fun _ : nat => Return (DataFrameObj empty_frame) in
  let out1 := get_or_compute (codec := framed) test_cache test_query fn
                             no_params false fresh_world in
  let out2 := get_or_compute (codec := framed) test_cache test_query fn
                             no_params false (advance 1 (snd out1)) in
  fst out1 = Return empty_frame /\
  files (snd out1) = files fresh_world /\
  compute_calls (snd out1) = 1%nat /\
  compute_calls (snd out2) = 2%nat.
Proof.
  apply (empty_result_is_not_cached (codec := framed) test_cache test_query
           (fun _ => Return (DataFrameObj empty_frame)) no_params false false
           fresh_world empty_frame 1).
  - reflexivity.
  - reflexivity.
  - reflexivity.
  - vm_compute. discriminate.
Defined.

Lemma none_result_yields_empty_frame_witness :
  let out := get_or_compute (codec := framed) test_cache test_query
                            (fun _ => Return NoneObj) no_params false
                            fresh_world in
  fst out = Return DataFrame_new /\
  df_empty DataFrame_new = true /\
  files (snd out) = files fresh_world /\
  (WARNING, "Compute function returned None") ∈ log (snd out) /\
  (forall msg, fst out <> Raise (TypeError msg)).
Proof.
  apply (none_result_yields_empty_frame (codec := framed) test_cache
           test_query (fun _ => Return NoneObj) no_params false fresh_world);
    reflexivity.
Defined.

(** C6 as stated fails on [None], which is not a frame and yet raises no
    [TypeError]. *)
Lemma none_is_not_a_type_error :
  is_DataFrame NoneObj = false /\
  ~ exists msg,
      fst (get_or_compute (codec := framed) test_cache test_query
                          (fun _ => Return NoneObj) no_params false
                          fresh_world)
      = Raise (TypeError msg).
Proof.
  split; [reflexivity|]. intros [msg Hmsg]. vm_compute in Hmsg.
  discriminate.
Qed.

Lemma non_frame_result_raises_type_error_witness :
  let out := get_or_compute (codec := framed) test_cache test_query
                            (fun _ => Return (StrObj "not a dataframe"))
                            no_params false fresh_world in
  fst out = Raise (TypeError
    "Compute function must return a pandas DataFrame, got <class 'str'>") /\
  files (snd out) = files fresh_world.
Proof.
  destruct (non_frame_result_raises_type_error (codec := framed) test_cache
              test_query (fun _ => Return (StrObj "not a dataframe"))
              no_params false fresh_world (StrObj "not a dataframe"))
    as (Hval & Hfiles & _).
  - reflexivity.
  - reflexivity.
  - discriminate.
  - reflexivity.
  - split; assumption.
Defined.

(** C8 as stated fails when the device fills up during the write: a forced
    refresh over a valid entry leaves a truncated file, which is neither
    the previous entry nor a valid one. *)
Definition one_row : DataFrame :=
  {| columns := ["id"]; rows := [[VInt 1]]; index := None |}.

Definition one_row_bytes : string := "PAR1" ++ to_string one_row ++ "PAR1".

Lemma full_device_leaves_truncated_entry :
  let w := world_with_entry one_row_bytes 60 8 in
  let out := get_or_compute (codec := framed) test_cache test_query
                            returns_sample no_params true w in
  fresh_entry (codec := framed) test_cache sample_entry w = Some one_row /\
  fst out = Return sample_dataframe /\
  ~ valid_or_untouched (codec := framed) sample_entry w (snd out).
Proof.
  intros w out. split; [vm_compute; reflexivity|].
  split; [vm_compute; reflexivity|].
  intros [(f & df & Hf & Hread) | Hsame].
  - vm_compute in Hf. injection Hf as <-. vm_compute in Hread. discriminate.
  - vm_compute in Hsame. discriminate.
Qed.

Lemma cache_write_is_in_place_witness :
  let w := world_with_entry one_row_bytes 60 8 in
  let out := get_or_compute (codec := framed) test_cache test_query
                            returns_sample no_params true w in
  fst out = Return sample_dataframe /\
  exists n, (n < String.length sample_bytes)%nat /\
    files (snd out) !! sample_entry =
      Some (File 60 (substring 0 n sample_bytes)) /\
    (ERROR, "Failed to cache result: [Errno 28] No space left on device")
    ∈ log (snd out) /\
    compute_calls
      (snd (get_or_compute (codec := framed) test_cache test_query
              returns_sample no_params false (advance 60%Q (snd out)))) =
    S (S (compute_calls w)).
Proof.
  intros w out.
  destruct (cache_write_is_in_place (codec := framed) test_cache test_query
              returns_sample no_params true w sample_dataframe)
    as (Hval & _ & _ & _ & _ & _ & Htrunc).
  - reflexivity.
  - reflexivity.
  - reflexivity.
  - split; [exact Hval|].
    destruct (Htrunc sample_bytes) as (n & Hn & Hentry & Hlog & Hnext).
    + reflexivity.
    + reflexivity.
    + unfold fits. apply Nat.nle_gt, Nat.leb_gt. vm_compute. reflexivity.
    + exists n. split; [exact Hn|]. split; [exact Hentry|].
      split; [exact Hlog|].
      apply (Hnext (OtherException "ArrowInvalid"
                      "Parquet magic bytes not found in footer") 60%Q).
      assert (exists content,
                files (snd out) !! entry_name test_cache test_query
                                              no_params w =
                  Some (File (clock w) content) /\
                read_parquet_bytes (Parquet := framed) content =
                  Raise (OtherException "ArrowInvalid"
                           "Parquet magic bytes not found in footer"))
        as (content & Hfile & Hread)
        by (vm_compute; eexists; split; reflexivity).
      unfold out in Hfile. rewrite Hentry in Hfile.
      replace (substring 0 n sample_bytes) with content by congruence.
      exact Hread.
Defined.

(** *** The further properties on the concrete world *)

(** A matcher for patterns made of literal characters, [?] and [*]. *)
Fixpoint wildcard (pattern name : string) : bool :=
  match pattern with
  | "" => match name with "" => true | _ => false end
  | String "*" pattern' =>
      (fix star (name : string) : bool :=
         wildcard pattern' name ||
         match name with
         | "" => false
         | String _ name' => star name'
         end) name
  | String "?" pattern' =>
      match name with
      | "" => false
      | String _ name' => wildcard pattern' name'
      end
  | String c pattern' =>
      match name with
      | "" => false
      | String d name' => Ascii.eqb c d && wildcard pattern' name'
      end
  end.

(** Patterns are matched as above, a pattern that starts at the root is
    refused, and nothing lies within reach outside the directory. *)
Definition wildcards : Glob :=
  {| glob_match := wildcard;
     glob_refuses := fun pattern =>
       match pattern with
       | String "/" _ =>
           Some (OtherException "NotImplementedError"
                   "Non-relative patterns are unsupported")
       | _ => None
       end;
     glob_elsewhere := fun _ => [] |}.

Example default_pattern_selects_entries :
  wildcard "query_*.parquet" sample_entry = true /\
  wildcard "query_*.parquet" "notes.txt" = false /\
  wildcard "query_*.parquet" "query_.parquet" = true /\
  wildcard "query_*.parquet" "query_abc.parquet.tmp" = false.
Proof. vm_compute. repeat split. Qed.

Definition value_error : exn := OtherException "ValueError" "Test error".

Lemma compute_exception_propagates_witness :
  let out := get_or_compute (codec := framed) test_cache test_query
                            (fun _ => Raise value_error) no_params false
                            fresh_world in
  fst out = Raise value_error /\
  files (snd out) = files fresh_world /\
  compute_calls (snd out) = S (compute_calls fresh_world) /\
  (ERROR, "Compute function failed: " ++ exn_str value_error)
  ∈ log (snd out).
Proof.
  apply (compute_exception_propagates (codec := framed) test_cache test_query
           (fun _ => Raise value_error) no_params false fresh_world
           value_error).
  - reflexivity.
  - reflexivity.
Defined.

(** The stored entry holds [sample_dataframe] and is exactly one hour old,
    with a TTL of one hour: the call computes and returns [one_row]. *)
Lemma stale_entry_is_recomputed_witness :
  let w := world_with_entry sample_bytes 3600 4096 in
  let out := get_or_compute (codec := framed) test_cache test_query
                            (fun _ => Return (DataFrameObj one_row))
                            no_params false w in
  compute_calls (snd out) = S (compute_calls w) /\
  fst out = Return one_row.
Proof.
  intros w out.
  destruct (stale_entry_is_recomputed (codec := framed) test_cache test_query
              (fun _ => Return (DataFrameObj one_row)) no_params w
              (File 0 sample_bytes))
    as (Hcalls & Hval & _).
  - vm_compute. reflexivity.
  - vm_compute. discriminate.
  - exact (conj Hcalls (Hval one_row eq_refl)).
Defined.

(** With a TTL of zero, the entry written a minute ago is not used. *)
Lemma nonpositive_ttl_disables_cache_witness :
  let self := {| cache_dir := "data/cache"; ttl_hours := 0 |} in
  let w := world_with_entry sample_bytes 60 4096 in
  let out := get_or_compute (codec := framed) self test_query
                            (fun _ => Return (DataFrameObj one_row))
                            no_params false w in
  compute_calls (snd out) = S (compute_calls w) /\
  fst out = Return one_row.
Proof.
  intros self w out.
  destruct (nonpositive_ttl_disables_cache (codec := framed) self test_query
              (fun _ => Return (DataFrameObj one_row)) no_params w)
    as (Hcalls & Hval).
  - reflexivity.
  - intros f Hf. vm_compute in Hf. injection Hf as <-.
    vm_compute. discriminate.
  - exact (conj Hcalls (Hval one_row eq_refl)).
Defined.

(** A directory holding one cache entry and one unrelated file. *)
Definition mixed_world (can_write : bool) : world :=
  World {[ sample_entry := File 0 sample_bytes;
           "notes.txt" := File 0 "keep" ]} 60 can_write 4096 [] 0.

Lemma clear_cache_removes_selected_witness :
  let w := mixed_world true in
  let out := clear_cache (matcher := wildcards) test_cache
                         (Some "*.parquet") w in
  let pat := effective_pattern (Some "*.parquet") in
  fst out =
    Return (Z.of_nat (length (selected (matcher := wildcards) pat w))) /\
  (forall name, glob_match (Glob := wildcards) pat name = true ->
     files (snd out) !! name = None) /\
  (forall name, glob_match (Glob := wildcards) pat name = false ->
     files (snd out) !! name = files w !! name) /\
  fst (clear_cache (matcher := wildcards) test_cache (Some "*.parquet")
                   (snd out)) = Return 0%Z.
Proof.
  apply (clear_cache_removes_selected (matcher := wildcards) test_cache
           (Some "*.parquet") (mixed_world true)).
  - reflexivity.
  - split; reflexivity.
Defined.

Example clear_cache_keeps_other_files :
  let out := clear_cache (matcher := wildcards) test_cache None
                         (mixed_world true) in
  fst out = Return 1%Z /\
  map fst (map_to_list (files (snd out))) = ["notes.txt"] /\
  log (snd out) =
    [(DEBUG, "Deleted cache file: query_fe13b4c0f846a672.parquet");
     (INFO, "Cleared 1 cache files")].
Proof. vm_compute. repeat split. Qed.

Lemma clear_cache_read_only_witness :
  let w := mixed_world false in
  let out := clear_cache (matcher := wildcards) test_cache
                         (Some "*.parquet") w in
  fst out = Return 0%Z /\
  files (snd out) = files w /\
  (forall name,
     name ∈ selected (matcher := wildcards)
              (effective_pattern (Some "*.parquet")) w ->
     (WARNING, "Failed to delete " ++ name ++
               ": [Errno 13] Permission denied: '" ++
               cache_path test_cache name ++ "'")
     ∈ log (snd out)).
Proof.
  apply (clear_cache_read_only (matcher := wildcards) test_cache
           (Some "*.parquet") (mixed_world false)).
  - reflexivity.
  - split; reflexivity.
Defined.

Lemma clear_cache_refused_pattern_witness :
  let e := OtherException "NotImplementedError"
                          "Non-relative patterns are unsupported" in
  let w := mixed_world true in
  clear_cache (matcher := wildcards) test_cache (Some "/etc/*") w =
  (Raise e, w).
Proof.
  intros e w.
  destruct (clear_cache_refused_pattern (matcher := wildcards) test_cache
              "/etc/*" e w) as [Hraise _].
  - reflexivity.
  - apply Hraise. discriminate.
Defined.

Lemma clear_cache_forces_recompute_witness :
  let w := mixed_world true in
  let cleared := snd (clear_cache (matcher := wildcards) test_cache None w) in
  let out := get_or_compute (codec := framed) test_cache test_query
                            returns_sample no_params false cleared in
  compute_calls (snd out) = S (compute_calls w).
Proof.
  apply (clear_cache_forces_recompute (codec := framed) (matcher := wildcards)
           test_cache test_query returns_sample no_params (mixed_world true)).
  - reflexivity.
  - vm_compute. reflexivity.
Defined.

Lemma stats_counts_are_consistent_witness :
  let w := mixed_world true in
  let stats := fst (get_cache_stats (matcher := wildcards) test_cache w) in
  let names := selected (matcher := wildcards) "query_*.parquet" w in
  file_count stats = Z.of_nat (length names) /\
  (1 <= file_count stats)%Z /\
  (exists expired,
     expired_files stats = Some expired /\
     (0 <= expired <= file_count stats)%Z) /\
  (newest_file_hours stats <= oldest_file_hours stats)%Q /\
  total_size_mb stats == inject_Z (total_bytes w names) / 1024 / 1024 /\
  (0 <= total_size_mb stats)%Q.
Proof.
  apply (stats_counts_are_consistent (matcher := wildcards) test_cache
           (mixed_world true)).
  vm_compute. discriminate.
Defined.

Lemma stats_after_clear_cache_witness :
  let w := mixed_world true in
  let cleared := snd (clear_cache (matcher := wildcards) test_cache None w) in
  fst (get_cache_stats (matcher := wildcards) test_cache cleared) =
  {| file_count := 0; total_size_mb := 0; oldest_file_hours := 0;
     newest_file_hours := 0; expired_files := None |}.
Proof.
  apply (stats_after_clear_cache (matcher := wildcards) test_cache
           (mixed_world true)).
  reflexivity.
Defined.

(** An entry exactly [ttl_hours] old is counted neither as expired by the
    statistics nor as fresh by the freshness check. *)
Example entry_at_ttl_is_neither_fresh_nor_expired :
  let w := world_with_entry sample_bytes 3600 4096 in
  expired_files (fst (get_cache_stats (matcher := wildcards) test_cache w)) =
    Some 0%Z /\
  fst (_is_cache_valid test_cache sample_entry w) = false.
Proof. vm_compute. split; reflexivity. Qed.

End QueryCache.

(** ** [etl/basic_rev_etl.py]: the caller of the client and of the cache *)

Module BasicRevEtl.
Import Py CostAwareClient.

Definition required_columns : list string :=
  ["address"; "tx_date"; "tx_count"; "sum_gas_used"; "total_rev_eth";
   "tips_rev_eth"; "burned_rev_eth"; "avg_tx_fee_eth"].

Definition validate_dataframe (df : QueryCache.object) (operation : string)
    : M world bool :=
  match df with
  | QueryCache.NoneObj =>
      logger ERROR (operation ++ ": DataFrame is None") >> ret false
  | QueryCache.DataFrameObj df =>
      if df_empty df then
        logger WARNING (operation ++ ": DataFrame is empty") >> ret true
      else
        let missing_columns :=
          filter (fun col => col ∉ columns df) required_columns in
        match missing_columns with
        | _ :: _ =>
            logger ERROR (operation ++ ": Missing required columns: " ++
                          repr missing_columns) >>
            ret false
        | [] =>
            logger INFO (operation ++ ": DataFrame validation passed - " ++
                         format_commas (Z.of_nat (df_len df)) ++ " rows, " ++
                         pretty (Z.of_nat (length (columns df))) ++
                         " columns") >>
            ret true
        end
  | other =>
      logger ERROR (operation ++ ": Expected DataFrame, got " ++
                    QueryCache.type_str other) >>
      ret false
  end.

(** What the cache receives from a compute function returning
    [Optional[pd.DataFrame]]. *)
Definition as_object (fetched : option DataFrame) : QueryCache.object :=
  match fetched with
  | Some df => QueryCache.DataFrameObj df
  | None => QueryCache.NoneObj
  end.

Section Fetch.

(** [df[column].sum()] rendered with [:.6f]: pandas decides whether the
    column can be summed and the total formatted. *)
Variable column_sum : DataFrame -> string -> result Q.

(** The [except Exception] clause of the fetch closure. *)
Definition fetch_failed (e : exn) : M world (option DataFrame) :=
  logger ERROR ("BigQuery fetch failed: " ++ exn_str e) >> ret None.

Definition _fetch_data_from_bq (bq : bigquery) (config : PipelineConfig)
    (sql_query_string : string) : M world (option DataFrame) :=
  logger INFO "Attempting to fetch data from BigQuery..." >>
  let* r := safe_query bq config sql_query_string None in
  match r with
  | Raise e => fetch_failed e
  | Return df =>
      if negb (df_empty df) then
        logger INFO ("Successfully fetched " ++
                     format_commas (Z.of_nat (df_len df)) ++
                     " rows from BigQuery") >>
        (if bool_decide ("total_rev_eth" ∈ columns df) then
           match column_sum df "total_rev_eth" with
           | Raise e => fetch_failed e
           | Return total_rev =>
               logger INFO ("Total revenue in dataset: " ++
                            format_fixed 6 total_rev ++ " ETH") >>
               ret (Some df)
           end
         else ret (Some df))
      else
        logger WARNING
          "No data returned from BigQuery or query was aborted" >>
        ret None
  end.

(** *** Properties *)

(** What [safe_query] returns depends on the answers of the service, not on
    the log or on the calls made before. *)
Lemma safe_query_value bq config query cust w1 w2 :
  fst (safe_query bq config query cust w1) =
  fst (safe_query bq config query cust w2).
Proof.
  unfold safe_query, estimate_query_cost, bind, client_query.
  destruct (remote_query bq query _) as [e|job].
  { destruct e; reflexivity. }
  cbn [logger ret fst snd log calls].
  destruct (_ >? _)%Z; [reflexivity|].
  set (billed := QueryJobConfig false true _).
  fold (customize bq cust billed).
  set (wa := World _ _). set (wb := World _ _).
  destruct (customize_spec bq cust billed wa wb) as (Hval & _).
  destruct (customize bq cust billed wa) as [ra wa'].
  destruct (customize bq cust billed wb) as [rb wb'].
  cbn [fst] in Hval. subst rb. destruct ra as [e|job_config]; [reflexivity|].
  cbn [fst snd].
  destruct (remote_query bq query _) as [e|job'].
  { destruct e; reflexivity. }
  destruct (to_dataframe job') as [e|df]; [destruct e|]; reflexivity.
Qed.

Lemma fetch_failed_spec e w :
  fst (fetch_failed e w) = None /\
  calls (snd (fetch_failed e w)) = calls w /\
  (ERROR, "BigQuery fetch failed: " ++ exn_str e) ∈ log (snd (fetch_failed e w)).
Proof.
  unfold fetch_failed, bind, logger, ret. cbn. repeat split.
  apply elem_of_app. right. constructor.
Qed.

(** The closure hands a frame to the cache exactly when [safe_query]
    returned it, it is not empty, and, if it has a [total_rev_eth] column,
    the statistics on that column did not raise; in every other case it
    returns [None]. *)
Theorem fetch_returns_frame_iff bq config sql_query_string w df :
  fst (_fetch_data_from_bq bq config sql_query_string w) = Some df <->
  fst (safe_query bq config sql_query_string None w) = Return df /\
  df_empty df = false /\
  ("total_rev_eth" ∈ columns df ->
   exists total_rev, column_sum df "total_rev_eth" = Return total_rev).
Proof.
  unfold _fetch_data_from_bq, bind. cbn [logger].
  set (w0 := World _ _).
  rewrite (safe_query_value bq config sql_query_string None w w0).
  destruct (safe_query bq config sql_query_string None w0) as [[e|df'] w1].
  { cbn [fst]. split; [|intros [[=] _]].
    intros Hfetch. destruct (fetch_failed_spec e w1) as [Hnone _].
    rewrite Hnone in Hfetch. discriminate. }
  cbn [fst]. destruct (df_empty df') eqn:Hempty; cbn [negb].
  { cbn. split; [discriminate|]. intros ([= ->] & Hne & _). congruence. }
  cbn [logger]. set (w2 := World _ _).
  destruct (bool_decide ("total_rev_eth" ∈ columns df')) eqn:Hcol.
  - apply bool_decide_eq_true in Hcol.
    destruct (column_sum df' "total_rev_eth") as [e|total_rev] eqn:Hsum.
    + destruct (fetch_failed_spec e w2) as [Hnone _]. rewrite Hnone.
      split; [discriminate|]. intros ([= ->] & _ & Hok).
      destruct (Hok Hcol) as [total_rev Htotal]. congruence.
    + cbn. split.
      * intros [= ->]. repeat split; eauto.
      * intros ([= ->] & _). reflexivity.
  - apply bool_decide_eq_false in Hcol. cbn. split.
    + intros [= ->]. repeat split; [assumption|]. intros Hin. contradiction.
    + intros ([= ->] & _). reflexivity.
Qed.

(** When [safe_query] raises, the closure logs the error and returns
    [None]; it sends nothing to the service itself. *)
Lemma fetch_of_raise bq config sql_query_string w e :
  let w0 := snd (logger INFO "Attempting to fetch data from BigQuery..." w) in
  fst (safe_query bq config sql_query_string None w0) = Raise e ->
  let out := _fetch_data_from_bq bq config sql_query_string w in
  fst out = None /\
  calls (snd out) =
    calls (snd (safe_query bq config sql_query_string None w0)) /\
  (ERROR, "BigQuery fetch failed: " ++ exn_str e) ∈ log (snd out).
Proof.
  intros w0 Hval out. subst out.
  unfold _fetch_data_from_bq, bind. fold w0.
  replace (logger INFO "Attempting to fetch data from BigQuery..." w)
    with (tt, w0) by reflexivity.
  destruct (safe_query bq config sql_query_string None w0) as [r w1].
  cbn [fst snd] in *. subst r.
  destruct (fetch_failed_spec e w1) as (Hnone & Hc & Hlog). auto.
Qed.

(** A query above the ceiling fetches nothing: the closure returns [None]
    instead of raising, only the dry run was sent, and the refusal is
    logged with the estimate and the ceiling. *)
Theorem refused_query_fetches_nothing bq config sql_query_string w job :
  remote_query bq sql_query_string (dry_run_config config) = Return job ->
  let estimate := or_zero (total_bytes_processed job) in
  let ceiling := MAX_BYTES_BILLED config in
  (estimate > ceiling)%Z ->
  let out := _fetch_data_from_bq bq config sql_query_string w in
  fst out = None /\
  calls (snd out) =
    (calls w ++ [(sql_query_string, dry_run_config config)])%list /\
  (ERROR, "BigQuery fetch failed: " ++
          cost_error_msg estimate ceiling (cost_usd estimate))
  ∈ log (snd out).
Proof.
  intros Hjob estimate ceiling Hgt out.
  set (w0 := snd (logger INFO "Attempting to fetch data from BigQuery..." w)).
  destruct (safe_query_over_limit bq config sql_query_string None w0 job Hjob
              Hgt) as [Hval Hcalls].
  fold estimate ceiling in Hval.
  destruct (fetch_of_raise bq config sql_query_string w _ Hval)
    as (Hnone & Hc & Hlog).
  fold out w0 in Hnone, Hc, Hlog.
  split; [exact Hnone|]. split; [|exact Hlog].
  rewrite Hc, Hcalls. reflexivity.
Qed.

(** A failing dry run is swallowed in the same way: the closure returns
    [None] and the billed job is never sent. *)
Theorem failed_dry_run_fetches_nothing bq config sql_query_string w e :
  remote_query bq sql_query_string (dry_run_config config) = Raise e ->
  let out := _fetch_data_from_bq bq config sql_query_string w in
  fst out = None /\
  calls (snd out) =
    (calls w ++ [(sql_query_string, dry_run_config config)])%list /\
  (ERROR, "BigQuery fetch failed: " ++ exn_str e) ∈ log (snd out).
Proof.
  intros Hfail out.
  set (w0 := snd (logger INFO "Attempting to fetch data from BigQuery..." w)).
  assert (fst (safe_query bq config sql_query_string None w0) = Raise e /\
          calls (snd (safe_query bq config sql_query_string None w0)) =
            (calls w0 ++ [(sql_query_string, dry_run_config config)])%list)
    as [Hval Hcalls].
  { unfold safe_query, estimate_query_cost, bind, client_query.
    fold (dry_run_config config). rewrite Hfail.
    destruct e; split; reflexivity. }
  destruct (fetch_of_raise bq config sql_query_string w _ Hval)
    as (Hnone & Hc & Hlog).
  fold out w0 in Hnone, Hc, Hlog.
  split; [exact Hnone|]. split; [|exact Hlog].
  rewrite Hc, Hcalls. reflexivity.
Qed.

End Fetch.

(** [validate_dataframe] accepts exactly the frames that are empty or carry
    every required column; it adds one log record, which is an [ERROR]
    exactly when it rejects. *)
Theorem validate_dataframe_verdict df operation w :
  let out := validate_dataframe df operation w in
  (fst out = true <->
   exists frame,
     df = QueryCache.DataFrameObj frame /\
     (df_empty frame = true \/
      forall col, col ∈ required_columns -> col ∈ columns frame)) /\
  (exists lvl msg,
     log (snd out) = (log w ++ [(lvl, msg)])%list /\
     (lvl = ERROR <-> fst out = false)) /\
  calls (snd out) = calls w.
Proof.
  intros out. subst out. unfold validate_dataframe.
  destruct df as [|frame| | | |];
    try (cbn; split; [split; [discriminate | intros (? & [=] & _)]|];
         split; [|reflexivity]; do 2 eexists; split; [reflexivity|];
         split; reflexivity).
  destruct (df_empty frame) eqn:Hempty.
  { cbn. split; [split; eauto|]. split; [|reflexivity].
    do 2 eexists. split; [reflexivity|]. split; discriminate. }
  destruct (filter (fun col => col ∉ columns frame) required_columns)
    as [|col missing] eqn:Hmissing.
  - cbn. split; [split; [intros _|reflexivity]|].
    + exists frame. split; [reflexivity|]. right. intros col Hcol.
      destruct (decide (col ∈ columns frame)) as [Hin|Hout]; [exact Hin|].
      assert (col ∈ filter (fun col => col ∉ columns frame) required_columns)
        as Hbad by (apply list_elem_of_filter; auto).
      rewrite Hmissing in Hbad. inversion Hbad.
    + split; [|reflexivity].
      do 2 eexists. split; [reflexivity|]. split; discriminate.
  - cbn. split; [split; [discriminate|]|].
    + intros (frame' & [= <-] & [Hemp|Hall]); [congruence|].
      assert (col ∈ filter (fun col => col ∉ columns frame) required_columns)
        as Hbad by (rewrite Hmissing; left).
      apply list_elem_of_filter in Hbad as [Hout Hreq].
      exfalso. apply Hout, Hall, Hreq.
    + split; [|reflexivity].
      do 2 eexists. split; [reflexivity|]. split; reflexivity.
Qed.

(** When a rejection is about columns, the message lists the required
    columns the frame lacks, in the order of the requirement. *)
Theorem validate_dataframe_reports_missing frame operation w :
  df_empty frame = false ->
  let missing := filter (fun col => col ∉ columns frame) required_columns in
  missing <> [] ->
  let out := validate_dataframe (QueryCache.DataFrameObj frame) operation w in
  fst out = false /\
  log (snd out) =
    (log w ++ [(ERROR, (operation ++ ": Missing required columns: " ++
                        repr missing)%string)])%list /\
  (forall col, col ∈ missing <->
     col ∈ required_columns /\ col ∉ columns frame).
Proof.
  intros Hempty missing Hne out. subst out. unfold validate_dataframe.
  rewrite Hempty. fold missing.
  destruct missing as [|col rest] eqn:Hmissing; [contradiction|].
  cbn. split; [reflexivity|]. split; [reflexivity|].
  intros c. rewrite <- Hmissing. unfold missing.
  rewrite list_elem_of_filter. split; intros [? ?]; auto.
Qed.

(** *** The closure under the cache *)

Section Pipeline.
Context {codec : QueryCache.Parquet}.
Context {V : Type} `{Repr V}.
Variable column_sum : DataFrame -> string -> result Q.

(** A refused query under the cache: [get_or_compute] hands the caller an
    empty frame instead of the refusal, stores nothing, the empty frame
    passes [validate_dataframe], and the next call, however late, runs the
    closure again. *)
Theorem refused_query_is_not_cached
    bq config sql_query_string wc job
    (self : QueryCache.QueryCache) (params : option (list (string * V)))
    (w : QueryCache.world) :
  remote_query bq sql_query_string (dry_run_config config) = Return job ->
  (or_zero (total_bytes_processed job) > MAX_BYTES_BILLED config)%Z ->
  QueryCache.fresh_entry self
    (QueryCache.entry_name self sql_query_string params w) w = None ->
  let compute_fn := fun _ : nat =>
    Return (as_object
              (fst (_fetch_data_from_bq column_sum bq config
                      sql_query_string wc))) in
  let out := QueryCache.get_or_compute self sql_query_string compute_fn
                                       params false w in
  fst out = Return DataFrame_new /\
  QueryCache.files (snd out) = QueryCache.files w /\
  QueryCache.compute_calls (snd out) = S (QueryCache.compute_calls w) /\
  (forall operation wl,
     fst (validate_dataframe (QueryCache.DataFrameObj DataFrame_new)
                             operation wl) = true) /\
  (forall dt, (0 <= dt)%Q ->
     QueryCache.compute_calls
       (snd (QueryCache.get_or_compute self sql_query_string compute_fn
               params false (QueryCache.advance dt (snd out)))) =
     S (S (QueryCache.compute_calls w))).
Proof.
  intros Hjob Hgt Hmiss compute_fn out.
  assert (forall n, compute_fn n = Return QueryCache.NoneObj) as Hfn.
  { intros n. unfold compute_fn.
    set (w0 := snd (logger INFO "Attempting to fetch data from BigQuery..."
                           wc)).
    destruct (safe_query_over_limit bq config sql_query_string None w0 job
                Hjob Hgt) as [Hval _].
    destruct (fetch_of_raise column_sum bq config sql_query_string wc _ Hval)
      as (-> & _).
    reflexivity. }
  destruct (QueryCache.get_or_compute_miss self sql_query_string compute_fn
              params false w Hmiss)
    as (w1 & Hw1 & _ & Hres & Hout & _).
  fold out in Hres, Hout.
  pose proof (QueryCache.compute_new_result_cases
                (QueryCache.entry_name self sql_query_string params w)
                compute_fn w1) as Hc.
  cbv zeta in Hc. rewrite Hfn in Hc. destruct Hc as (Hval & Hw2 & _).
  assert (QueryCache.files (snd out) = QueryCache.files w /\
          QueryCache.clock (snd out) = QueryCache.clock w) as [Hfiles Hclock].
  { destruct Hout as (Hf1 & Hc1 & _). destruct Hw2 as (Hf2 & Hc2 & _).
    destruct Hw1 as (Hf3 & Hc3 & _).
    split; [rewrite Hf1, Hf2; exact Hf3 | rewrite Hc1, Hc2; exact Hc3]. }
  assert (QueryCache.compute_calls (snd out) =
          S (QueryCache.compute_calls w)) as Hcalls
    by (apply QueryCache.get_or_compute_miss_calls; exact Hmiss).
  split; [congruence|]. split; [exact Hfiles|]. split; [exact Hcalls|].
  split; [reflexivity|].
  intros dt Hdt. rewrite QueryCache.get_or_compute_miss_calls.
  - cbn [QueryCache.advance QueryCache.compute_calls]. now rewrite Hcalls.
  - change (QueryCache.entry_name self sql_query_string params
              (QueryCache.advance dt (snd out)))
      with (QueryCache.entry_name self sql_query_string params w).
    apply (QueryCache.fresh_entry_stays_none self _ w _ dt Hmiss);
      [exact Hfiles
      | cbn [QueryCache.advance QueryCache.clock]; now rewrite Hclock
      | exact Hdt].
Qed.

End Pipeline.

(** *** The properties on the concrete service and cache *)

(** Sum of an integer column; anything else in the column cannot be
    rendered with [:.6f]. *)
Fixpoint sum_cells (cells : list (option value)) : result Q :=
  match cells with
  | [] => Return 0%Q
  | Some (VInt n) :: rest =>
      match sum_cells rest with
      | Return total => Return (inject_Z n + total)%Q
      | Raise e => Raise e
      end
  | _ :: _ =>
      Raise (OtherException "ValueError"
               "Unknown format code 'f' for object of type 'str'")
  end.

Fixpoint index_of (column : string) (names : list string) : option nat :=
  match names with
  | [] => None
  | name :: rest =>
      if String.eqb name column then Some 0%nat
      else option_map S (index_of column rest)
  end.

Definition int_column_sum (df : DataFrame) (column : string) : result Q :=
  match index_of column (columns df) with
  | Some i => sum_cells (map (fun row => nth_error row i) (rows df))
  | None => Raise (OtherException "KeyError" column)
  end.

Lemma refused_query_fetches_nothing_witness :
  let out := _fetch_data_from_bq int_column_sum
               (service (Some (12 * 1024 ^ 3))) ten_gib "SELECT 1"
               empty_world in
  let estimate := or_zero (Some (12 * 1024 ^ 3)%Z) in
  let ceiling := MAX_BYTES_BILLED ten_gib in
  fst out = None /\
  calls (snd out) =
    (calls empty_world ++ [("SELECT 1", dry_run_config ten_gib)])%list /\
  (ERROR, "BigQuery fetch failed: " ++
          cost_error_msg estimate ceiling (cost_usd estimate))
  ∈ log (snd out).
Proof.
  apply (refused_query_fetches_nothing int_column_sum
           (service (Some (12 * 1024 ^ 3))) ten_gib "SELECT 1" empty_world
           {| total_bytes_processed := Some (12 * 1024 ^ 3);
              total_bytes_billed := None;
              to_dataframe := Raise (GoogleCloudError "dry run") |}).
  - vm_compute. reflexivity.
  - vm_compute. reflexivity.
Defined.

Lemma failed_dry_run_fetches_nothing_witness :
  let out := _fetch_data_from_bq int_column_sum unreachable ten_gib
                                 "SELECT 1" empty_world in
  fst out = None /\
  calls (snd out) =
    (calls empty_world ++ [("SELECT 1", dry_run_config ten_gib)])%list /\
  (ERROR, "BigQuery fetch failed: " ++
          exn_str (GoogleCloudError "Service unavailable")) ∈ log (snd out).
Proof.
  apply (failed_dry_run_fetches_nothing int_column_sum unreachable ten_gib
           "SELECT 1" empty_world (GoogleCloudError "Service unavailable")).
  reflexivity.
Defined.

(** The three rows of the concrete service reach the cache. *)
Example fetch_within_ceiling :
  fst (_fetch_data_from_bq int_column_sum (service (Some (5 * 1024 ^ 3)))
         ten_gib "SELECT 1" empty_world) = Some three_rows.
Proof. vm_compute. reflexivity. Qed.

Definition two_columns : DataFrame :=
  {| columns := ["address"; "tx_date"];
     rows := [[VStr "0xabc"; VStr "2024-01-01"]];
     index := None |}.

Lemma validate_dataframe_reports_missing_witness :
  let missing :=
    filter (fun col => col ∉ columns two_columns) required_columns in
  let out := validate_dataframe (QueryCache.DataFrameObj two_columns)
                                "Data validation" empty_world in
  fst out = false /\
  log (snd out) =
    (log empty_world ++
     [(ERROR, ("Data validation" ++ ": Missing required columns: " ++
               repr missing)%string)])%list /\
  (forall col, col ∈ missing <->
     col ∈ required_columns /\ col ∉ columns two_columns).
Proof.
  apply (validate_dataframe_reports_missing two_columns "Data validation"
           empty_world).
  - reflexivity.
  - vm_compute. discriminate.
Defined.

Example missing_columns_message :
  log (snd (validate_dataframe (QueryCache.DataFrameObj two_columns)
              "Data validation" empty_world)) =
  [(ERROR, "Data validation: Missing required columns: ['tx_count', 'sum_gas_used', 'total_rev_eth', 'tips_rev_eth', 'burned_rev_eth', 'avg_tx_fee_eth']")].
Proof. vm_compute. reflexivity. Qed.

Lemma refused_query_is_not_cached_witness :
  let compute_fn := fun _ : nat =>
    Return (as_object
              (fst (_fetch_data_from_bq int_column_sum
                      (service (Some (12 * 1024 ^ 3))) ten_gib
                      QueryCache.test_query empty_world))) in
  let out := QueryCache.get_or_compute (codec := QueryCache.framed)
               QueryCache.test_cache QueryCache.test_query compute_fn
               QueryCache.no_params false QueryCache.fresh_world in
  fst out = Return DataFrame_new /\
  QueryCache.files (snd out) = QueryCache.files QueryCache.fresh_world /\
  QueryCache.compute_calls (snd out) =
    S (QueryCache.compute_calls QueryCache.fresh_world).
Proof.
  intros compute_fn out.
  destruct (refused_query_is_not_cached (codec := QueryCache.framed)
              int_column_sum (service (Some (12 * 1024 ^ 3))) ten_gib
              QueryCache.test_query empty_world
              {| total_bytes_processed := Some (12 * 1024 ^ 3);
                 total_bytes_billed := None;
                 to_dataframe := Raise (GoogleCloudError "dry run") |}
              QueryCache.test_cache QueryCache.no_params
              QueryCache.fresh_world)
    as (Hval & Hfiles & Hcalls & _).
  - vm_compute. reflexivity.
  - vm_compute. reflexivity.
  - reflexivity.
  - exact (conj Hval (conj Hfiles Hcalls)).
Defined.

End BasicRevEtl.
